(** * republic-go/grpc/swarm.go: the gRPC swarm client and service

    A shallow embedding of [swarmClient] (the outbound half: Ping, Pong,
    Query, MultiAddress) and of [SwarmService] (the inbound half: Ping, Pong,
    Query), and the properties of them that the specification states.

    Effects are explicit.  Every function of the source that talks to a
    collaborator runs in the monad [M]: it reads and extends the history of
    events (dials, closes, RPC invocations, store lookups, log lines, backoff
    delays, calls into the swarm.Server), and it ends either with a value or
    with a Go panic.  The collaborators are deterministic functions of that
    history, so a peer may answer the third attempt differently from the
    first, and a swarm.Server may keep any state it likes. *)

From Stdlib Require Import ZArith.
From Stdlib.Strings Require Import Ascii Byte.
From stdpp Require Import base option list strings.

Local Open Scope Z_scope.

(** ** Go errors *)

(** The package-level [errors.New] values are compared by identity in Go, so
    each is a constructor of its own.  [errorString] is any other error: the
    result of [fmt.Errorf], or an error made by a collaborator. *)
Inductive error : Type :=
| ErrRateLimitExceeded
| ErrPingRequestIsNil
| ErrPongRequestIsNil
| ErrQueryRequestIsNil
| ErrMultiAddressIsNil
| ErrAddressIsNil
| errorString (s : string).

#[global] Instance error_eq_dec : EqDecision error.
Proof. solve_decision. Defined.

(** [err.Error()] *)
Definition Error (e : error) : string :=
  match e with
  | ErrRateLimitExceeded => "cannot process request, rate limit exceeded"
  | ErrPingRequestIsNil => "ping request is nil"
  | ErrPongRequestIsNil => "pong request is nil"
  | ErrQueryRequestIsNil => "query request is nil"
  | ErrMultiAddressIsNil => "multi-address is nil"
  | ErrAddressIsNil => "address is nil"
  | errorString s => s
  end.

(** [fmt.Errorf(prefix + "%v", err)] *)
Definition Errorf (prefix : string) (e : error) : error :=
  errorString (prefix +:+ Error e).

(** ** Outcomes: a returned value, or a panic *)

Inductive outcome (A : Type) : Type :=
| Ret (a : A)
| Panic (msg : string).
Arguments Ret {A} a.
Arguments Panic {A} msg.

Definition returned {A} (o : outcome A) : bool :=
  match o with Ret _ => true | Panic _ => false end.

(** [logger] levels used by the file. *)
Inductive Level : Type := LevelError | LevelWarn | LevelInfo.

(** [identity.Address] is a Go string. *)
Definition Address : Type := string.

(** A [*grpc.ClientConn], by the number the dialer gave it. *)
Definition Conn : Type := nat.

Section Swarm.

(** [context.Context] is opaque to this file: it is handed to the dialer,
    to the backoff, to the RPC stubs and to the swarm.Server. *)
Variable Context : Type.

(** The unexported address that an [identity.MultiAddress] wraps. *)
Variable Multiaddr : Type.

(** Modelled from the spec: the declaration of [identity.MultiAddress] is
    not in this file.  The code reads and writes its exported fields
    [Signature] and [Nonce], builds its zero value [identity.MultiAddress{}]
    and calls [IsNil] and [String] on it; the specification gives it an
    address, a signature (bytes) and a nonce (unsigned), and calls a record
    whose address field is nil invalid. *)
Record MultiAddress : Type := mkMultiAddress {
  Signature : list Byte.byte;
  Nonce : Z;
  baseMultiAddress : option Multiaddr
}.

(** [identity.MultiAddress{}] *)
Definition MultiAddress_zero : MultiAddress :=
  {| Signature := []; Nonce := 0; baseMultiAddress := None |}.

(** [multiAddr.IsNil()] *)
Definition IsNil (multiAddr : MultiAddress) : bool :=
  match baseMultiAddress multiAddr with
  | None => true
  | Some _ => false
  end.

(** [multiAddr.Signature = sig] and [multiAddr.Nonce = n] *)
Definition set_Signature (sig : list Byte.byte) (m : MultiAddress) : MultiAddress :=
  {| Signature := sig; Nonce := Nonce m; baseMultiAddress := baseMultiAddress m |}.
Definition set_Nonce (n : Z) (m : MultiAddress) : MultiAddress :=
  {| Signature := Signature m; Nonce := n; baseMultiAddress := baseMultiAddress m |}.

(** [multiAddr.String()], which is also how [%v] prints a multi-address,
    and [identity.NewMultiAddressFromString]: the canonical string form and
    its parser belong to the identity package. *)
Variable MultiAddress_String : MultiAddress -> string.
Variable NewMultiAddressFromString : string -> MultiAddress + error.

(** ** The protobuf messages (generated code of this package) *)

Record grpc_MultiAddress : Type := {
  msgSignature : list Byte.byte;
  msgMultiAddress : string;
  msgMultiAddressNonce : Z
}.

Record PingRequest : Type := { PingRequest_MultiAddress : option grpc_MultiAddress }.
Record PongRequest : Type := { PongRequest_MultiAddress : option grpc_MultiAddress }.
Record QueryRequest : Type := { QueryRequest_Address : string }.
Inductive PingResponse : Type := mkPingResponse.
Inductive PongResponse : Type := mkPongResponse.
Record QueryResponse : Type := {
  QueryResponse_MultiAddresses : list (option grpc_MultiAddress)
}.

(** The generated getters are nil-safe: on a nil receiver they return the
    zero value of the field. *)
Definition PingRequest_GetMultiAddress (r : option PingRequest) : option grpc_MultiAddress :=
  match r with Some r => PingRequest_MultiAddress r | None => None end.
Definition PongRequest_GetMultiAddress (r : option PongRequest) : option grpc_MultiAddress :=
  match r with Some r => PongRequest_MultiAddress r | None => None end.
Definition QueryRequest_GetAddress (r : option QueryRequest) : string :=
  match r with Some r => QueryRequest_Address r | None => "" end.
Definition GetMultiAddress (m : option grpc_MultiAddress) : string :=
  match m with Some m => msgMultiAddress m | None => "" end.
Definition GetSignature (m : option grpc_MultiAddress) : list Byte.byte :=
  match m with Some m => msgSignature m | None => [] end.
Definition GetMultiAddressNonce (m : option grpc_MultiAddress) : Z :=
  match m with Some m => msgMultiAddressNonce m | None => 0 end.

(** [%v] of a [*grpc.MultiAddress]: the text form of the message. *)
Variable grpc_MultiAddress_String : option grpc_MultiAddress -> string.

(** ** Events and the monad *)

Inductive Event : Type :=
| EvDial (ctx : Context) (to : MultiAddress)
| EvClose (conn : Conn)
| EvInvokePing (conn : Conn) (ctx : Context) (request : PingRequest)
| EvInvokePong (conn : Conn) (ctx : Context) (request : PongRequest)
| EvInvokeQuery (conn : Conn) (ctx : Context) (request : QueryRequest)
| EvStore (addr : Address)
| EvLog (lvl : Level) (msg : string)
| EvSleep (attempt : nat)
| EvServerPing (ctx : Context) (multiAddr : MultiAddress)
| EvServerPong (ctx : Context) (multiAddr : MultiAddress)
| EvServerQuery (ctx : Context) (query : Address).

(** A computation takes the history so far and gives an outcome and the
    history extended by what it did. *)
Definition M (A : Type) : Type := list Event -> outcome A * list Event.

#[global] Instance M_ret : MRet M := fun A a t => (Ret a, t).
#[global] Instance M_bind : MBind M := fun A B f m t =>
  match m t with
  | (Ret a, t') => f a t'
  | (Panic msg, t') => (Panic msg, t')
  end.

Definition emit (e : Event) : M unit := fun t => (Ret tt, t ++ [e]).
Definition panic {A} (msg : string) : M A := fun t => (Panic msg, t).

(** A call into a collaborator: its answer is a function of the history,
    and the call is recorded. *)
Definition call {A} (answer : list Event -> A) (e : Event) : M A :=
  fun t => (Ret (answer t), t ++ [e]).

(** [defer cleanup] followed by [body]: the cleanup runs when the body is
    over, whether it returned or panicked, and the body's outcome stands. *)
Definition defer {A} (cleanup : M unit) (body : M A) : M A :=
  fun t => let '(r, t') := body t in (r, snd (cleanup t')).

(** [logger.Network(lvl, msg)] *)
Definition logger_Network (lvl : Level) (msg : string) : M unit :=
  emit (EvLog lvl msg).

(** ** The collaborators *)

(** The network as the client sees it: [Dial], the three stubs of
    [NewSwarmServiceClient(conn)], and [ctx.Err()]. *)
Record Network : Type := {
  net_Dial : list Event -> Context -> MultiAddress -> Conn + error;
  net_Ping : list Event -> Conn -> Context -> PingRequest -> PingResponse + error;
  net_Pong : list Event -> Conn -> Context -> PongRequest -> PongResponse + error;
  net_Query : list Event -> Conn -> Context -> QueryRequest -> QueryResponse + error;
  ctx_Err : list Event -> Context -> option error
}.

(** [swarm.MultiAddressStorer], as far as this file uses it. *)
Record MultiAddressStorer : Type := {
  storer_MultiAddress : list Event -> Address -> MultiAddress + error
}.

(** [swarm.Server]: the swarm core the service delegates to. *)
Record Server : Type := {
  Server_Ping : list Event -> Context -> MultiAddress -> option error;
  Server_Pong : list Event -> Context -> MultiAddress -> option error;
  Server_Query : list Event -> Context -> Address -> list MultiAddress + error
}.

Variable net : Network.

(** The number of retries [Backoff] allows after the first attempt. *)
Variable backoffRetries : nat.

Definition Dial (ctx : Context) (to : MultiAddress) : M (Conn + error) :=
  call (fun t => net_Dial net t ctx to) (EvDial ctx to).

Definition conn_Close (conn : Conn) : M unit := emit (EvClose conn).

Definition SwarmServiceClient_Ping (conn : Conn) (ctx : Context) (request : PingRequest)
  : M (PingResponse + error) :=
  call (fun t => net_Ping net t conn ctx request) (EvInvokePing conn ctx request).
Definition SwarmServiceClient_Pong (conn : Conn) (ctx : Context) (request : PongRequest)
  : M (PongResponse + error) :=
  call (fun t => net_Pong net t conn ctx request) (EvInvokePong conn ctx request).
Definition SwarmServiceClient_Query (conn : Conn) (ctx : Context) (request : QueryRequest)
  : M (QueryResponse + error) :=
  call (fun t => net_Query net t conn ctx request) (EvInvokeQuery conn ctx request).

(** Modelled from the spec: [Backoff] is a function of this package that is
    not in this file.  It invokes the operation; on failure it retries
    after a delay, up to a bounded number of attempts or until the context
    is cancelled, whichever comes first.  It returns nil on the first
    success and the last error when the attempts run out; a cancellation
    during a delay surfaces the cancellation error, not the operation's.
    The delay before the retry that follows attempt [k] is the event
    [EvSleep k]; how long it lasts, and that it grows with [k], is not
    modelled.  The closure [f] assigns to variables of the calling function each time
    it runs: [f] returns their new values with its error, and the values
    left by its last run are returned with the result. *)
Fixpoint backoffLoop {A} (ctx : Context) (f : M (A * option error))
    (retries attempt : nat) : M (A * option error) :=
  '(a, err) ← f;
  match err with
  | None => mret (a, None)
  | Some e =>
      match retries with
      | O => mret (a, Some e)
      | S retries' =>
          cancelled ← call (fun t => ctx_Err net t ctx) (EvSleep attempt);
          match cancelled with
          | Some ce => mret (a, Some ce)
          | None => backoffLoop ctx f retries' (S attempt)
          end
      end
  end.

Definition Backoff {A} (ctx : Context) (f : M (A * option error)) : M (A * option error) :=
  backoffLoop ctx f backoffRetries 0.

(** ** The client *)

Record swarmClient : Type := {
  addr : Address;
  store : MultiAddressStorer
}.

(** [func NewSwarmClient(store, addr) swarm.Client] *)
Definition NewSwarmClient (store : MultiAddressStorer) (addr : Address) : swarmClient :=
  {| addr := addr; store := store |}.

(** [client.store.MultiAddress(client.addr)] *)
Definition store_MultiAddress (client : swarmClient) : M (MultiAddress + error) :=
  call (fun t => storer_MultiAddress (store client) t (addr client)) (EvStore (addr client)).

(** The message both [Ping] and [Pong] put in their request. *)
Definition toMessage (multiAddr : MultiAddress) : grpc_MultiAddress :=
  {| msgSignature := Signature multiAddr;
     msgMultiAddress := MultiAddress_String multiAddr;
     msgMultiAddressNonce := Nonce multiAddr |}.

Definition cannotDial (to : MultiAddress) (err : error) : string :=
  "cannot dial " +:+ MultiAddress_String to +:+ ": " +:+ Error err.

(** The error, and the response, that a stub call leaves in the variables
    the closure assigns to. *)
Definition errOf {A} (r : A + error) : option error :=
  match r with inl _ => None | inr e => Some e end.
Definition responseOf {A} (r : A + error) : option A :=
  match r with inl a => Some a | inr _ => None end.

(** The closures handed to [Backoff]: one invocation of the stub, leaving
    its error (and, for [Query], its response) in the caller's variables. *)
Definition pingAttempt (conn : Conn) (ctx : Context) (request : PingRequest)
  : M (unit * option error) :=
  r ← SwarmServiceClient_Ping conn ctx request; mret (tt, errOf r).
Definition pongAttempt (conn : Conn) (ctx : Context) (request : PongRequest)
  : M (unit * option error) :=
  r ← SwarmServiceClient_Pong conn ctx request; mret (tt, errOf r).
Definition queryAttempt (conn : Conn) (ctx : Context) (request : QueryRequest)
  : M (option QueryResponse * option error) :=
  r ← SwarmServiceClient_Query conn ctx request; mret (responseOf r, errOf r).

(** [func (client *swarmClient) Ping(ctx, to, multiAddr) error] *)
Definition swarmClient_Ping (client : swarmClient) (ctx : Context)
    (to multiAddr : MultiAddress) : M (option error) :=
  if IsNil multiAddr then mret (Some ErrMultiAddressIsNil)
  else
    dialled ← Dial ctx to;
    match dialled with
    | inr err =>
        logger_Network LevelError (cannotDial to err);;
        mret (Some (errorString (cannotDial to err)))
    | inl conn =>
        defer (conn_Close conn)
          (let request := {| PingRequest_MultiAddress := Some (toMessage multiAddr) |} in
           '(_, err) ← Backoff ctx (pingAttempt conn ctx request);
           mret err)
    end.

(** [func (client *swarmClient) Pong(ctx, to) error] *)
Definition swarmClient_Pong (client : swarmClient) (ctx : Context)
    (to : MultiAddress) : M (option error) :=
  dialled ← Dial ctx to;
  match dialled with
  | inr err =>
      logger_Network LevelError (cannotDial to err);;
      mret (Some (errorString (cannotDial to err)))
  | inl conn =>
      defer (conn_Close conn)
        (looked ← store_MultiAddress client;
         match looked with
         | inr err =>
             logger_Network LevelError ("cannot get self details: " +:+ Error err);;
             mret (Some (Errorf "cannot get self details: " err))
         | inl multiAddr =>
             let request := {| PongRequest_MultiAddress := Some (toMessage multiAddr) |} in
             '(_, err) ← Backoff ctx (pongAttempt conn ctx request);
             mret err
         end)
  end.

(** The loop of [Query] over [response.MultiAddresses]: an entry that does
    not parse is logged and skipped, one that parses takes the nonce and
    the signature of its message and is appended.  The entries are
    pointers, and the loop reads a field of each. *)
Fixpoint parseResponse (msgs : list (option grpc_MultiAddress))
    (multiAddrs : list MultiAddress) : M (list MultiAddress) :=
  match msgs with
  | [] => mret multiAddrs
  | None :: _ => panic "invalid memory address or nil pointer dereference"
  | Some multiAddrMsg :: rest =>
      match NewMultiAddressFromString (msgMultiAddress multiAddrMsg) with
      | inr err =>
          logger_Network LevelWarn
            ("cannot parse " +:+ msgMultiAddress multiAddrMsg +:+ ": " +:+ Error err);;
          parseResponse rest multiAddrs
      | inl multiAddr =>
          let multiAddr := set_Nonce (msgMultiAddressNonce multiAddrMsg) multiAddr in
          let multiAddr := set_Signature (msgSignature multiAddrMsg) multiAddr in
          parseResponse rest (multiAddrs ++ [multiAddr])
      end
  end.

(** [func (client *swarmClient) Query(ctx, to, query) (identity.MultiAddresses, error)].
    The request carries [query.String()], the identifier itself as a
    string. *)
Definition swarmClient_Query (client : swarmClient) (ctx : Context)
    (to : MultiAddress) (query : Address) : M (list MultiAddress * option error) :=
  if decide (query = "") then mret ([], Some ErrAddressIsNil)
  else
    dialled ← Dial ctx to;
    match dialled with
    | inr err =>
        logger_Network LevelError (cannotDial to err);;
        mret ([], Some (errorString (cannotDial to err)))
    | inl conn =>
        defer (conn_Close conn)
          (let request := {| QueryRequest_Address := query |} in
           '(response, err) ← Backoff ctx (queryAttempt conn ctx request);
           match err with
           | Some err => mret ([], Some err)
           | None =>
               match response with
               | None => panic "invalid memory address or nil pointer dereference"
               | Some response =>
                   multiAddrs ← parseResponse (QueryResponse_MultiAddresses response) [];
                   mret (multiAddrs, None)
               end
           end)
    end.

(** [func (client *swarmClient) MultiAddress() identity.MultiAddress] *)
Definition swarmClient_MultiAddress (client : swarmClient) : M MultiAddress :=
  looked ← store_MultiAddress client;
  match looked with
  | inr err =>
      logger_Network LevelError ("cannot retrieve own multiaddress: " +:+ Error err);;
      mret MultiAddress_zero
  | inl multiAddr => mret multiAddr
  end.

(** ** The service *)

Record SwarmService : Type := { server : Server }.

(** [func NewSwarmService(server) SwarmService] *)
Definition NewSwarmService (server : Server) : SwarmService :=
  {| server := server |}.

Definition server_Ping (service : SwarmService) (ctx : Context) (from : MultiAddress)
  : M (option error) :=
  call (fun t => Server_Ping (server service) t ctx from) (EvServerPing ctx from).
Definition server_Pong (service : SwarmService) (ctx : Context) (from : MultiAddress)
  : M (option error) :=
  call (fun t => Server_Pong (server service) t ctx from) (EvServerPong ctx from).
Definition server_Query (service : SwarmService) (ctx : Context) (query : Address)
  : M (list MultiAddress + error) :=
  call (fun t => Server_Query (server service) t ctx query) (EvServerQuery ctx query).

(** [func (service *SwarmService) Ping(ctx, request) ( *PingResponse, error )] *)
Definition SwarmService_Ping (service : SwarmService) (ctx : Context)
    (request : option PingRequest) : M (option PingResponse * option error) :=
  match request with
  | None => mret (None, Some ErrPingRequestIsNil)
  | Some req =>
      match PingRequest_MultiAddress req with
      | None => mret (None, Some ErrMultiAddressIsNil)
      | Some _ =>
          match NewMultiAddressFromString
                  (GetMultiAddress (PingRequest_GetMultiAddress request)) with
          | inr err =>
              logger_Network LevelError ("cannot unmarshal multiaddress: " +:+ Error err);;
              mret (None, Some (Errorf "cannot unmarshal multiaddress: " err))
          | inl from =>
              let from := set_Signature (GetSignature (PingRequest_GetMultiAddress request)) from in
              let from := set_Nonce (GetMultiAddressNonce (PingRequest_GetMultiAddress request)) from in
              err ← server_Ping service ctx from;
              match err with
              | Some err =>
                  logger_Network LevelInfo ("cannot update store with: " +:+ Error err);;
                  mret (Some mkPingResponse, Some (Errorf "cannot update store: " err))
              | None => mret (Some mkPingResponse, None)
              end
          end
      end
  end.

(** [func (service *SwarmService) Pong(ctx, request) ( *PongResponse, error )] *)
Definition SwarmService_Pong (service : SwarmService) (ctx : Context)
    (request : option PongRequest) : M (option PongResponse * option error) :=
  match request with
  | None => mret (None, Some ErrPongRequestIsNil)
  | Some req =>
      match PongRequest_MultiAddress req with
      | None => mret (None, Some ErrMultiAddressIsNil)
      | Some _ =>
          match NewMultiAddressFromString
                  (GetMultiAddress (PongRequest_GetMultiAddress request)) with
          | inr err =>
              logger_Network LevelError ("cannot unmarshal multiaddress: " +:+ Error err);;
              mret (None, Some (Errorf "cannot unmarshal multiaddress: " err))
          | inl from =>
              let from := set_Signature (GetSignature (PongRequest_GetMultiAddress request)) from in
              let from := set_Nonce (GetMultiAddressNonce (PongRequest_GetMultiAddress request)) from in
              err ← server_Pong service ctx from;
              match err with
              | Some err =>
                  logger_Network LevelInfo
                    ("cannot update storer with "
                       +:+ grpc_MultiAddress_String (PongRequest_GetMultiAddress request)
                       +:+ ": " +:+ Error err);;
                  mret (Some mkPongResponse, Some (Errorf "cannot update storer: " err))
              | None => mret (Some mkPongResponse, None)
              end
          end
      end
  end.

(** The loop of the service's [Query]: [multiAddrMsgs[i] = &MultiAddress{...}]
    for the [i]-th record, on a slice made with one nil entry per record. *)
Fixpoint fillMessages (i : nat) (multiAddrs : list MultiAddress)
    (multiAddrMsgs : list (option grpc_MultiAddress)) : list (option grpc_MultiAddress) :=
  match multiAddrs with
  | [] => multiAddrMsgs
  | multiAddr :: rest =>
      fillMessages (S i) rest
        (<[i := Some {| msgMultiAddress := MultiAddress_String multiAddr;
                        msgSignature := Signature multiAddr;
                        msgMultiAddressNonce := Nonce multiAddr |}]> multiAddrMsgs)
  end.

(** [func (service *SwarmService) Query(ctx, request) ( *QueryResponse, error )] *)
Definition SwarmService_Query (service : SwarmService) (ctx : Context)
    (request : option QueryRequest) : M (option QueryResponse * option error) :=
  match request with
  | None => mret (None, Some ErrQueryRequestIsNil)
  | Some req =>
      if decide (QueryRequest_Address req = "") then mret (None, Some ErrAddressIsNil)
      else
        let query : Address := QueryRequest_GetAddress request in
        found ← server_Query service ctx query;
        match found with
        | inr err => mret (None, Some err)
        | inl multiAddrs =>
            let multiAddrMsgs :=
              fillMessages 0 multiAddrs (replicate (length multiAddrs) None) in
            mret (Some {| QueryResponse_MultiAddresses := multiAddrMsgs |}, None)
        end
  end.

(** ** Requests as they come in *)

(** [Register] hands the three handlers to the gRPC server, which calls the
    one that a request names, with the context of that request. *)
Inductive Inbound : Type :=
| InPing (ctx : Context) (request : option PingRequest)
| InPong (ctx : Context) (request : option PongRequest)
| InQuery (ctx : Context) (request : option QueryRequest).

(** The error with which the service answers a request. *)
Definition answer (service : SwarmService) (req : Inbound) : M (option error) :=
  match req with
  | InPing ctx request => '(_, err) ← SwarmService_Ping service ctx request; mret err
  | InPong ctx request => '(_, err) ← SwarmService_Pong service ctx request; mret err
  | InQuery ctx request => '(_, err) ← SwarmService_Query service ctx request; mret err
  end.

(** The same, with the events that the handler added to the history. *)
Definition handle (service : SwarmService) (req : Inbound)
  : M (option error * list Event) :=
  fun t =>
    match answer service req t with
    | (Ret err, t') => (Ret (err, drop (length t) t'), t')
    | (Panic msg, t') => (Panic msg, t')
    end.

(** A sequence of requests, served one after the other. *)
Fixpoint serve (service : SwarmService) (reqs : list Inbound)
  : M (list (option error * list Event)) :=
  match reqs with
  | [] => mret []
  | req :: rest =>
      out ← handle service req;
      outs ← serve service rest;
      mret (out :: outs)
  end.

(** ** What a computation adds to the history *)

Definition isDial (e : Event) : bool :=
  match e with EvDial _ _ => true | _ => false end.
Definition isClose (e : Event) : bool :=
  match e with EvClose _ => true | _ => false end.
Definition isInvoke (e : Event) : bool :=
  match e with
  | EvInvokePing _ _ _ | EvInvokePong _ _ _ | EvInvokeQuery _ _ _ => true
  | _ => false
  end.
Definition isSleep (e : Event) : bool :=
  match e with EvSleep _ => true | _ => false end.
Definition isServer (e : Event) : bool :=
  match e with
  | EvServerPing _ _ | EvServerPong _ _ | EvServerQuery _ _ => true
  | _ => false
  end.

(** An event that neither opens nor closes a connection. *)
Definition quiet (e : Event) : Prop := isDial e = false /\ isClose e = false.

(** How many events of a kind a list has. *)
Definition count (p : Event -> bool) (d : list Event) : nat :=
  length (List.filter p d).

(** [adds P m]: whatever the history, [m] only appends to it, and only
    events that satisfy [P]. *)
Definition adds (P : Event -> Prop) {A} (m : M A) : Prop :=
  forall t, exists d, snd (m t) = t ++ d /\ Forall P d.

(** A call that dialled [to], got [conn], and closed it as its last act,
    with no other dial or close in between. *)
Definition released (t : list Event) (ctx : Context) (to : MultiAddress)
    (conn : Conn) (t' : list Event) : Prop :=
  exists d, t' = t ++ EvDial ctx to :: d ++ [EvClose conn] /\ Forall quiet d.

(** A closure whose every invocation issues one RPC and fails. *)
Definition alwaysFails {A} (f : M (A * option error)) : Prop :=
  forall t, exists a e ev, f t = (Ret (a, Some e), t ++ [ev]) /\ isInvoke ev = true.

(** The record the client's [Query] makes of a well-formed entry, and
    nothing for a malformed one. *)
Definition parsedEntry (multiAddrMsg : grpc_MultiAddress) : option MultiAddress :=
  match NewMultiAddressFromString (msgMultiAddress multiAddrMsg) with
  | inl multiAddr =>
      Some {| Signature := msgSignature multiAddrMsg;
              Nonce := msgMultiAddressNonce multiAddrMsg;
              baseMultiAddress := baseMultiAddress multiAddr |}
  | inr _ => None
  end.

Definition wellFormed (multiAddrMsg : grpc_MultiAddress) : bool :=
  match NewMultiAddressFromString (msgMultiAddress multiAddrMsg) with
  | inl _ => true
  | inr _ => false
  end.

(** The rejections that a handler makes itself, before any call into the
    swarm.Server: the nil request of each kind, the nil multi-address, the
    empty identifier, and the address string that does not parse. *)
Definition validationRejection (err : option error) : Prop :=
  err = Some ErrPingRequestIsNil
  \/ err = Some ErrPongRequestIsNil
  \/ err = Some ErrQueryRequestIsNil
  \/ err = Some ErrMultiAddressIsNil
  \/ err = Some ErrAddressIsNil
  \/ exists e, err = Some (Errorf "cannot unmarshal multiaddress: " e).

(** What holds of every answer of the service: one given without a call
    into the swarm.Server is one of the rejections of the validation; and
    the rate limit's error is only ever the error of the swarm.Server's own
    [Query], passed on. *)
Definition neverThrottled (out : option error * list Event) : Prop :=
  (count isServer (snd out) = 0%nat -> validationRejection (fst out))
  /\ (fst out = Some ErrRateLimitExceeded ->
      exists ctx query, snd out = [EvServerQuery ctx query]).

(** The events between [t] and [t'] hold exactly one dial. *)
Definition dialsOnce (t t' : list Event) : Prop :=
  exists d, t' = t ++ d /\ count isDial d = 1%nat.

(** The events between [t] and [t'] hold one dial, and one RPC invocation
    for the first attempt and for each retry the backoff allows, with a
    delay before each retry. *)
Definition retriedToTheEnd (t t' : list Event) : Prop :=
  exists d, t' = t ++ d /\ count isDial d = 1%nat
            /\ count isInvoke d = S backoffRetries
            /\ count isSleep d = backoffRetries.

(** A peer that accepts the connection and then fails every RPC. *)
Definition failsEveryRPC (conn : Conn) (ctx : Context) : Prop :=
  (forall t request, exists e, net_Ping net t conn ctx request = inr e)
  /\ (forall t request, exists e, net_Pong net t conn ctx request = inr e)
  /\ (forall t request, exists e, net_Query net t conn ctx request = inr e).

(** A reply of a handler that is not nil on both sides: without an error
    there is a response, and without a response there is an error. *)
Definition answered {R} (reply : option R * option error) : Prop :=
  (snd reply = None -> is_Some (fst reply))
  /\ (fst reply = None -> is_Some (snd reply)).

Definition isStore (e : Event) : bool :=
  match e with EvStore _ => true | _ => false end.
Definition isLog (e : Event) : bool :=
  match e with EvLog _ _ => true | _ => false end.

(** An event of a backoff around one invocation: that invocation again, or
    a delay. *)
Definition attemptOf (invocation : Event) (e : Event) : Prop :=
  e = invocation \/ isSleep e = true.

(** The same, or a log line. *)
Definition attemptOrLog (invocation : Event) (e : Event) : Prop :=
  e = invocation \/ isSleep e = true \/ isLog e = true.

(** The line the client's [Query] logs for a malformed entry, and nothing
    for a well-formed one. *)
Definition warning (multiAddrMsg : grpc_MultiAddress) : option Event :=
  match NewMultiAddressFromString (msgMultiAddress multiAddrMsg) with
  | inl _ => None
  | inr err =>
      Some (EvLog LevelWarn
              ("cannot parse " +:+ msgMultiAddress multiAddrMsg +:+ ": " +:+ Error err))
  end.

(** A multi-address whose canonical string parses back to its address. *)
Definition roundTrips (multiAddr : MultiAddress) : Prop :=
  exists parsed,
    NewMultiAddressFromString (MultiAddress_String multiAddr) = inl parsed
    /\ baseMultiAddress parsed = baseMultiAddress multiAddr.

Lemma adds_ret P {A} (a : A) : adds P (mret a : M A).
Proof. intros t. exists []. rewrite app_nil_r. split; [reflexivity | constructor]. Qed.

Lemma adds_panic P {A} msg : adds P (panic msg : M A).
Proof. intros t. exists []. rewrite app_nil_r. split; [reflexivity | constructor]. Qed.

Lemma adds_call (P : Event -> Prop) {A} (answer : list Event -> A) e :
  P e -> adds P (call answer e).
Proof. intros He t. exists [e]. split; [reflexivity | repeat constructor; exact He]. Qed.

Lemma adds_emit (P : Event -> Prop) e : P e -> adds P (emit e).
Proof. intros He t. exists [e]. split; [reflexivity | repeat constructor; exact He]. Qed.

Lemma adds_bind P {A B} (m : M A) (f : A -> M B) :
  adds P m -> (forall a, adds P (f a)) -> adds P (m ≫= f).
Proof.
  intros Hm Hf t. unfold mbind, M_bind.
  destruct (Hm t) as (d & E & F).
  destruct (m t) as [[a | msg] t1]; simpl in E; subst t1.
  - destruct (Hf a (t ++ d)) as (d' & E' & F').
    exists (d ++ d'). rewrite E', app_assoc. split; [reflexivity |].
    apply Forall_app; split; assumption.
  - exists d. split; [reflexivity | assumption].
Qed.

Lemma adds_backoffLoop (P : Event -> Prop) {A} ctx (f : M (A * option error)) n :
  (forall k, P (EvSleep k)) -> adds P f -> forall k, adds P (backoffLoop ctx f n k).
Proof.
  intros Hs Hf. induction n as [| n IH]; intros k; simpl.
  - apply adds_bind; [exact Hf |]. intros [a [e |]]; apply adds_ret.
  - apply adds_bind; [exact Hf |]. intros [a [e |]]; [| apply adds_ret].
    apply adds_bind; [apply adds_call, Hs |].
    intros [ce |]; [apply adds_ret | apply IH].
Qed.

Lemma adds_Backoff (P : Event -> Prop) {A} ctx (f : M (A * option error)) :
  (forall k, P (EvSleep k)) -> adds P f -> adds P (Backoff ctx f).
Proof. intros Hs Hf. apply adds_backoffLoop; assumption. Qed.

Lemma adds_parseResponse (P : Event -> Prop) msgs :
  (forall lvl msg, P (EvLog lvl msg)) -> forall acc, adds P (parseResponse msgs acc).
Proof.
  intros Hl. induction msgs as [| [m |] rest IH]; intros acc; simpl.
  - apply adds_ret.
  - destruct (NewMultiAddressFromString (msgMultiAddress m)) as [ma | err].
    + apply IH.
    + apply adds_bind; [apply adds_emit, Hl |]. intros _. apply IH.
  - apply adds_panic.
Qed.

Lemma defer_released {A} ctx to conn (body : M A) t :
  adds quiet body ->
  released t ctx to conn (snd (defer (conn_Close conn) body (t ++ [EvDial ctx to]))).
Proof.
  intros Hb. unfold defer.
  destruct (Hb (t ++ [EvDial ctx to])) as (d & E & F).
  destruct (body (t ++ [EvDial ctx to])) as [r t1]; simpl in *; subst t1.
  exists d. split; [| exact F]. rewrite <- !app_assoc. reflexivity.
Qed.

Lemma quiet_sleep k : quiet (EvSleep k).
Proof. split; reflexivity. Qed.

Lemma quiet_log lvl msg : quiet (EvLog lvl msg).
Proof. split; reflexivity. Qed.

Lemma pingAttempt_quiet conn ctx request : adds quiet (pingAttempt conn ctx request).
Proof.
  apply adds_bind; [apply adds_call; split; reflexivity |]. intros r. apply adds_ret.
Qed.

Lemma pongAttempt_quiet conn ctx request : adds quiet (pongAttempt conn ctx request).
Proof.
  apply adds_bind; [apply adds_call; split; reflexivity |]. intros r. apply adds_ret.
Qed.

Lemma queryAttempt_quiet conn ctx request : adds quiet (queryAttempt conn ctx request).
Proof.
  apply adds_bind; [apply adds_call; split; reflexivity |]. intros r. apply adds_ret.
Qed.

(** The three calls up to their dial. *)
Lemma Ping_dialled client ctx to multiAddr t :
  IsNil multiAddr = false ->
  swarmClient_Ping client ctx to multiAddr t =
  match net_Dial net t ctx to with
  | inr err =>
      (Ret (Some (errorString (cannotDial to err))),
       t ++ [EvDial ctx to; EvLog LevelError (cannotDial to err)])
  | inl conn =>
      defer (conn_Close conn)
        ('(_, err) ← Backoff ctx
            (pingAttempt conn ctx {| PingRequest_MultiAddress := Some (toMessage multiAddr) |});
         mret err) (t ++ [EvDial ctx to])
  end.
Proof.
  intros Hnil. unfold swarmClient_Ping. rewrite Hnil.
  unfold mbind at 1, M_bind at 1, Dial, call.
  destruct (net_Dial net t ctx to) as [conn | err]; [reflexivity |].
  unfold mbind, M_bind, mret, M_ret, logger_Network, emit. cbn. rewrite <- ?app_assoc. reflexivity.
Qed.

Lemma Pong_dialled client ctx to t :
  swarmClient_Pong client ctx to t =
  match net_Dial net t ctx to with
  | inr err =>
      (Ret (Some (errorString (cannotDial to err))),
       t ++ [EvDial ctx to; EvLog LevelError (cannotDial to err)])
  | inl conn =>
      defer (conn_Close conn)
        (looked ← store_MultiAddress client;
         match looked with
         | inr err =>
             logger_Network LevelError ("cannot get self details: " +:+ Error err);;
             mret (Some (Errorf "cannot get self details: " err))
         | inl multiAddr =>
             '(_, err) ← Backoff ctx
                 (pongAttempt conn ctx
                    {| PongRequest_MultiAddress := Some (toMessage multiAddr) |});
             mret err
         end) (t ++ [EvDial ctx to])
  end.
Proof.
  unfold swarmClient_Pong.
  unfold mbind at 1, M_bind at 1, Dial, call.
  destruct (net_Dial net t ctx to) as [conn | err]; [reflexivity |].
  unfold mbind, M_bind, mret, M_ret, logger_Network, emit. cbn. rewrite <- ?app_assoc. reflexivity.
Qed.

Lemma Query_dialled client ctx to query t :
  query <> "" ->
  swarmClient_Query client ctx to query t =
  match net_Dial net t ctx to with
  | inr err =>
      (Ret ([], Some (errorString (cannotDial to err))),
       t ++ [EvDial ctx to; EvLog LevelError (cannotDial to err)])
  | inl conn =>
      defer (conn_Close conn)
        ('(response, err) ← Backoff ctx
            (queryAttempt conn ctx {| QueryRequest_Address := query |});
         match err with
         | Some err => mret ([], Some err)
         | None =>
             match response with
             | None => panic "invalid memory address or nil pointer dereference"
             | Some response =>
                 multiAddrs ← parseResponse (QueryResponse_MultiAddresses response) [];
                 mret (multiAddrs, None)
             end
         end) (t ++ [EvDial ctx to])
  end.
Proof.
  intros Hq. unfold swarmClient_Query.
  case_decide; [contradiction |].
  unfold mbind at 1, M_bind at 1, Dial, call.
  destruct (net_Dial net t ctx to) as [conn | err]; [reflexivity |].
  unfold mbind, M_bind, mret, M_ret, logger_Network, emit. cbn. rewrite <- ?app_assoc. reflexivity.
Qed.

(** The bodies that run between the dial and the deferred close. *)
Lemma Ping_body_quiet conn ctx request :
  adds quiet ('(_, err) ← Backoff ctx (pingAttempt conn ctx request); mret err).
Proof.
  apply adds_bind.
  - apply adds_Backoff; [apply quiet_sleep | apply pingAttempt_quiet].
  - intros [u e]. apply adds_ret.
Qed.

Lemma Pong_body_quiet client conn ctx :
  adds quiet
    (looked ← store_MultiAddress client;
     match looked with
     | inr err =>
         logger_Network LevelError ("cannot get self details: " +:+ Error err);;
         mret (Some (Errorf "cannot get self details: " err))
     | inl multiAddr =>
         '(_, err) ← Backoff ctx
             (pongAttempt conn ctx
                {| PongRequest_MultiAddress := Some (toMessage multiAddr) |});
         mret err
     end).
Proof.
  apply adds_bind; [apply adds_call; split; reflexivity |].
  intros [multiAddr | err].
  - apply adds_bind.
    + apply adds_Backoff; [apply quiet_sleep | apply pongAttempt_quiet].
    + intros [u e]. apply adds_ret.
  - apply adds_bind; [apply adds_emit, quiet_log |]. intros _. apply adds_ret.
Qed.

Lemma Query_body_quiet conn ctx request :
  adds quiet
    ('(response, err) ← Backoff ctx (queryAttempt conn ctx request);
     match err with
     | Some err => mret ([], Some err)
     | None =>
         match response with
         | None => panic "invalid memory address or nil pointer dereference"
         | Some response =>
             multiAddrs ← parseResponse (QueryResponse_MultiAddresses response) [];
             mret (multiAddrs, None)
         end
     end).
Proof.
  apply adds_bind.
  - apply adds_Backoff; [apply quiet_sleep | apply queryAttempt_quiet].
  - intros [[response |] [e |]]; try apply adds_ret; [| apply adds_panic].
    apply adds_bind; [apply adds_parseResponse, quiet_log |].
    intros multiAddrs. apply adds_ret.
Qed.

Lemma count_app p d1 d2 : count p (d1 ++ d2) = (count p d1 + count p d2)%nat.
Proof. unfold count. rewrite List.filter_app, length_app. reflexivity. Qed.

Lemma count_quiet_dial d : Forall quiet d -> count isDial d = 0%nat.
Proof.
  induction 1 as [| e d [Hd _] _ IH]; [reflexivity |].
  unfold count in *. simpl. rewrite Hd. exact IH.
Qed.

Lemma count_quiet_close d : Forall quiet d -> count isClose d = 0%nat.
Proof.
  induction 1 as [| e d [_ Hc] _ IH]; [reflexivity |].
  unfold count in *. simpl. rewrite Hc. exact IH.
Qed.

Lemma released_one_dial t ctx to conn t' :
  released t ctx to conn t' ->
  exists d, t' = t ++ d /\ count isDial d = 1%nat /\ count isClose d = 1%nat.
Proof.
  intros (d & -> & F). exists (EvDial ctx to :: d ++ [EvClose conn]).
  split; [reflexivity |].
  change (EvDial ctx to :: d ++ [EvClose conn]) with ([EvDial ctx to] ++ d ++ [EvClose conn]).
  rewrite !count_app, (count_quiet_dial d F), (count_quiet_close d F).
  split; reflexivity.
Qed.

(** When every attempt fails and the context is never cancelled, the
    backoff invokes the closure once and then once more per retry. *)
Lemma backoffLoop_exhausts {A} ctx (f : M (A * option error)) :
  alwaysFails f ->
  (forall t, ctx_Err net t ctx = None) ->
  forall n k t, exists a e d,
    backoffLoop ctx f n k t = (Ret (a, Some e), t ++ d)
    /\ Forall quiet d /\ count isInvoke d = S n /\ count isSleep d = n.
Proof.
  intros Hf Hc. induction n as [| n IH]; intros k t.
  - destruct (Hf t) as (a & e & ev & E & I).
    exists a, e, [ev]. simpl. unfold mbind, M_bind. rewrite E. simpl.
    split; [reflexivity |]. destruct ev; try discriminate I;
      (split; [repeat constructor | split; reflexivity]).
  - destruct (Hf t) as (a & e & ev & E & I).
    destruct (IH (S k) ((t ++ [ev]) ++ [EvSleep k])) as (a' & e' & d & E' & Q & CI & CS).
    exists a', e', ([ev] ++ [EvSleep k] ++ d).
    simpl. unfold mbind at 1, M_bind at 1. rewrite E. simpl.
    unfold mbind at 1, M_bind at 1, call. rewrite Hc. rewrite E'.
    split; [rewrite <- !app_assoc; reflexivity |].
    split.
    + constructor; [destruct ev; try discriminate I; split; reflexivity |].
      constructor; [apply quiet_sleep | exact Q].
    + unfold count in *.
      destruct ev; try discriminate I; simpl; rewrite CI, CS; split; reflexivity.
Qed.

Lemma released_retried t ctx to conn t' d :
  t' = t ++ EvDial ctx to :: d ++ [EvClose conn] ->
  Forall quiet d -> count isInvoke d = S backoffRetries -> count isSleep d = backoffRetries ->
  retriedToTheEnd t t'.
Proof.
  intros -> Q CI CS. exists (EvDial ctx to :: d ++ [EvClose conn]).
  split; [reflexivity |].
  change (EvDial ctx to :: d ++ [EvClose conn]) with ([EvDial ctx to] ++ d ++ [EvClose conn]).
  rewrite !count_app, (count_quiet_dial d Q), CI, CS.
  repeat split; unfold count; simpl; lia.
Qed.

Lemma dial_failure_once t ctx to msg :
  dialsOnce t (t ++ [EvDial ctx to; EvLog LevelError msg]).
Proof. eexists. split; reflexivity. Qed.

(** *** The client: validation before the dial *)

(** C1, as the code has it.  A [Ping] with a nil multi-address fails with
    [ErrMultiAddressIsNil] and leaves the history as it was.  [Pong] takes
    no multi-address: its first act is the dial, and only then does it read
    its record from the store; when that lookup fails, it fails with the
    store's error after the dial, invokes no RPC and closes the
    connection. *)
Theorem Ping_nil_address_before_dial client ctx to multiAddr t :
  IsNil multiAddr = true ->
  swarmClient_Ping client ctx to multiAddr t = (Ret (Some ErrMultiAddressIsNil), t)
  /\ (exists r d, swarmClient_Pong client ctx to t = (r, t ++ EvDial ctx to :: d))
  /\ (forall conn err,
        net_Dial net t ctx to = inl conn ->
        storer_MultiAddress (store client) (t ++ [EvDial ctx to]) (addr client) = inr err ->
        swarmClient_Pong client ctx to t =
        (Ret (Some (Errorf "cannot get self details: " err)),
         t ++ [EvDial ctx to; EvStore (addr client);
               EvLog LevelError ("cannot get self details: " +:+ Error err);
               EvClose conn])).
Proof.
  intros Hnil. split; [| split].
  - unfold swarmClient_Ping. rewrite Hnil. reflexivity.
  - rewrite Pong_dialled. destruct (net_Dial net t ctx to) as [conn | err].
    + pose proof (defer_released ctx to conn _ t (Pong_body_quiet client conn ctx)) as (d & E & _).
      destruct (defer _ _ _) as [r t']. simpl in E. subst t'. eauto.
    + eauto.
  - intros conn err Hdial Hstore. rewrite Pong_dialled, Hdial.
    unfold defer, mbind, M_bind, store_MultiAddress, call. rewrite Hstore.
    unfold logger_Network, emit, mret, M_ret, conn_Close. simpl.
    rewrite <- !app_assoc. reflexivity.
Qed.

Lemma Ping_released client ctx to multiAddr t conn :
  net_Dial net t ctx to = inl conn -> IsNil multiAddr = false ->
  released t ctx to conn (snd (swarmClient_Ping client ctx to multiAddr t)).
Proof.
  intros Hdial Hnil. rewrite Ping_dialled, Hdial by exact Hnil.
  apply defer_released, Ping_body_quiet.
Qed.

Lemma Pong_released client ctx to t conn :
  net_Dial net t ctx to = inl conn ->
  released t ctx to conn (snd (swarmClient_Pong client ctx to t)).
Proof.
  intros Hdial. rewrite Pong_dialled, Hdial.
  apply defer_released, Pong_body_quiet.
Qed.

Lemma Query_released client ctx to query t conn :
  net_Dial net t ctx to = inl conn -> query <> "" ->
  released t ctx to conn (snd (swarmClient_Query client ctx to query t)).
Proof.
  intros Hdial Hq. rewrite Query_dialled, Hdial by exact Hq.
  apply defer_released, Query_body_quiet.
Qed.

Lemma released_dialsOnce t ctx to conn t' : released t ctx to conn t' -> dialsOnce t t'.
Proof.
  intros H. destruct (released_one_dial _ _ _ _ _ H) as (d & E & C & _).
  exists d. split; assumption.
Qed.

Lemma Query_dialsOnce client ctx to query t :
  query <> "" -> dialsOnce t (snd (swarmClient_Query client ctx to query t)).
Proof.
  intros Hq. destruct (net_Dial net t ctx to) as [conn | err] eqn:Hd.
  - apply (released_dialsOnce t ctx to conn), Query_released; assumption.
  - rewrite Query_dialled, Hd by assumption. apply dial_failure_once.
Qed.

(** C7.  A [Query] for the empty identifier fails with [ErrAddressIsNil]
    and leaves the history as it was: nothing is dialled and no RPC is
    invoked.  The empty identifier is the only one for which nothing
    happens: for any other, the call dials. *)
Theorem Query_empty_identifier client ctx to t :
  swarmClient_Query client ctx to "" t = (Ret ([], Some ErrAddressIsNil), t)
  /\ (forall query,
        snd (swarmClient_Query client ctx to query t) = t -> query = "").
Proof.
  split; [reflexivity |].
  intros query Hsame. destruct (decide (query = "")) as [E | Hq]; [exact E | exfalso].
  destruct (Query_dialsOnce client ctx to query t Hq) as (d & E & C).
  rewrite Hsame in E. rewrite <- (app_nil_r t) in E at 1.
  apply app_inv_head in E. subst d. discriminate C.
Qed.

(** *** The client: the connection *)

(** C8.  When the dial succeeds, each of [Ping], [Pong] and [Query] ends
    with the close of the connection it dialled, whatever its outcome (a nil
    error, an error, or a panic), and neither dials nor closes anything else
    in between. *)
Theorem connection_released client ctx to multiAddr query t conn :
  net_Dial net t ctx to = inl conn ->
  IsNil multiAddr = false ->
  query <> "" ->
  released t ctx to conn (snd (swarmClient_Ping client ctx to multiAddr t))
  /\ released t ctx to conn (snd (swarmClient_Pong client ctx to t))
  /\ released t ctx to conn (snd (swarmClient_Query client ctx to query t)).
Proof.
  intros Hdial Hnil Hq. split; [| split].
  - apply Ping_released; assumption.
  - apply Pong_released; assumption.
  - apply Query_released; assumption.
Qed.

(** *** The client: what the backoff covers *)

Lemma pingAttempt_alwaysFails conn ctx request :
  (forall t request, exists e, net_Ping net t conn ctx request = inr e) ->
  alwaysFails (pingAttempt conn ctx request).
Proof.
  intros H t. destruct (H t request) as [e E].
  exists tt, e, (EvInvokePing conn ctx request).
  unfold pingAttempt, mbind, M_bind, SwarmServiceClient_Ping, call. rewrite E.
  split; reflexivity.
Qed.

Lemma pongAttempt_alwaysFails conn ctx request :
  (forall t request, exists e, net_Pong net t conn ctx request = inr e) ->
  alwaysFails (pongAttempt conn ctx request).
Proof.
  intros H t. destruct (H t request) as [e E].
  exists tt, e, (EvInvokePong conn ctx request).
  unfold pongAttempt, mbind, M_bind, SwarmServiceClient_Pong, call. rewrite E.
  split; reflexivity.
Qed.

Lemma queryAttempt_alwaysFails conn ctx request :
  (forall t request, exists e, net_Query net t conn ctx request = inr e) ->
  alwaysFails (queryAttempt conn ctx request).
Proof.
  intros H t. destruct (H t request) as [e E].
  exists None, e, (EvInvokeQuery conn ctx request).
  unfold queryAttempt, mbind, M_bind, SwarmServiceClient_Query, call. rewrite E.
  split; reflexivity.
Qed.

(** C3, as the code has it.  Each of [Ping], [Pong] and [Query] dials
    exactly once, outside the backoff: a dial failure is returned at once as
    a "cannot dial" error, after one dial and one log line, with no delay
    and no second attempt.  Only the RPC runs under the backoff: against a
    peer that accepts the connection and fails every RPC, with a context
    that is never cancelled, the RPC is invoked once and then once more for
    every retry the backoff allows, while the dial still happens once. *)
Theorem dial_outside_Backoff client ctx to multiAddr query t :
  IsNil multiAddr = false ->
  query <> "" ->
  (dialsOnce t (snd (swarmClient_Ping client ctx to multiAddr t))
   /\ dialsOnce t (snd (swarmClient_Pong client ctx to t))
   /\ dialsOnce t (snd (swarmClient_Query client ctx to query t)))
  /\ (forall err,
        net_Dial net t ctx to = inr err ->
        swarmClient_Ping client ctx to multiAddr t =
          (Ret (Some (errorString (cannotDial to err))),
           t ++ [EvDial ctx to; EvLog LevelError (cannotDial to err)])
        /\ swarmClient_Pong client ctx to t =
          (Ret (Some (errorString (cannotDial to err))),
           t ++ [EvDial ctx to; EvLog LevelError (cannotDial to err)])
        /\ swarmClient_Query client ctx to query t =
          (Ret ([], Some (errorString (cannotDial to err))),
           t ++ [EvDial ctx to; EvLog LevelError (cannotDial to err)]))
  /\ (forall conn,
        net_Dial net t ctx to = inl conn ->
        failsEveryRPC conn ctx ->
        (forall t', ctx_Err net t' ctx = None) ->
        retriedToTheEnd t (snd (swarmClient_Ping client ctx to multiAddr t))
        /\ (forall self,
              storer_MultiAddress (store client) (t ++ [EvDial ctx to]) (addr client)
                = inl self ->
              retriedToTheEnd t (snd (swarmClient_Pong client ctx to t)))
        /\ retriedToTheEnd t (snd (swarmClient_Query client ctx to query t))).
Proof.
  intros Hnil Hq. split; [| split].
  - destruct (net_Dial net t ctx to) as [conn | err] eqn:Hd.
    + split; [| split]; apply (released_dialsOnce t ctx to conn).
      * apply Ping_released; assumption.
      * apply Pong_released; assumption.
      * apply Query_released; assumption.
    + rewrite Ping_dialled, Pong_dialled, Query_dialled, Hd by assumption.
      repeat split; apply dial_failure_once.
  - intros err Hd. rewrite Ping_dialled, Pong_dialled, Query_dialled, Hd by assumption.
    repeat split.
  - intros conn Hd (HP & HG & HQ) Hc. split; [| split].
    + rewrite Ping_dialled, Hd by assumption.
      destruct (backoffLoop_exhausts ctx _
                  (pingAttempt_alwaysFails conn ctx
                     {| PingRequest_MultiAddress := Some (toMessage multiAddr) |} HP)
                  Hc backoffRetries 0%nat (t ++ [EvDial ctx to]))
        as (a & e & d & E & Q & CI & CS).
      unfold defer, mbind, M_bind, Backoff. rewrite E. simpl.
      apply (released_retried t ctx to conn _ d); try assumption.
      rewrite <- !app_assoc. reflexivity.
    + intros self Hs. rewrite Pong_dialled, Hd.
      destruct (backoffLoop_exhausts ctx _
                  (pongAttempt_alwaysFails conn ctx
                     {| PongRequest_MultiAddress := Some (toMessage self) |} HG)
                  Hc backoffRetries 0%nat ((t ++ [EvDial ctx to]) ++ [EvStore (addr client)]))
        as (a & e & d & E & Q & CI & CS).
      unfold defer, mbind, M_bind, store_MultiAddress, call, Backoff.
      rewrite Hs, E. simpl.
      apply (released_retried t ctx to conn _ (EvStore (addr client) :: d)).
      * rewrite <- !app_assoc. reflexivity.
      * constructor; [split; reflexivity | exact Q].
      * exact CI.
      * exact CS.
    + rewrite Query_dialled, Hd by assumption.
      destruct (backoffLoop_exhausts ctx _
                  (queryAttempt_alwaysFails conn ctx
                     {| QueryRequest_Address := query |} HQ)
                  Hc backoffRetries 0%nat (t ++ [EvDial ctx to]))
        as (a & e & d & E & Q & CI & CS).
      unfold defer, mbind, M_bind, Backoff. rewrite E. simpl.
      apply (released_retried t ctx to conn _ d); try assumption.
      rewrite <- !app_assoc. reflexivity.
Qed.

(** *** The client: its own address *)

(** C9.  [MultiAddress] always returns, never panics: it returns the
    store's record when the lookup succeeds, and the zero multi-address when
    the lookup fails. *)
Theorem MultiAddress_best_effort client t :
  returned (fst (swarmClient_MultiAddress client t)) = true
  /\ (forall self,
        storer_MultiAddress (store client) t (addr client) = inl self ->
        fst (swarmClient_MultiAddress client t) = Ret self)
  /\ (forall err,
        storer_MultiAddress (store client) t (addr client) = inr err ->
        fst (swarmClient_MultiAddress client t) = Ret MultiAddress_zero).
Proof.
  unfold swarmClient_MultiAddress, mbind, M_bind, store_MultiAddress, call.
  destruct (storer_MultiAddress (store client) t (addr client)) as [self | err];
    (split; [reflexivity | split]); intros x E; inversion E; reflexivity.
Qed.

(** *** The client: the response of a query *)

Lemma parseResponse_omap (entries : list grpc_MultiAddress) :
  forall multiAddrs t, exists d,
    parseResponse (Some <$> entries) multiAddrs t
    = (Ret (multiAddrs ++ omap parsedEntry entries), t ++ d).
Proof.
  induction entries as [| entry rest IH]; intros multiAddrs t.
  - exists []. simpl. rewrite !app_nil_r. reflexivity.
  - simpl. unfold parsedEntry at 1.
    destruct (NewMultiAddressFromString (msgMultiAddress entry)) as [multiAddr | err].
    + edestruct IH as (d & E). exists d. rewrite E, <- app_assoc. reflexivity.
    + unfold mbind, M_bind, logger_Network, emit.
      edestruct IH as (d & E). eexists. rewrite E, <- app_assoc. reflexivity.
Qed.

Lemma omap_parsedEntry_length (entries : list grpc_MultiAddress) :
  length (omap parsedEntry entries) = length (List.filter wellFormed entries).
Proof.
  induction entries as [| entry rest IH]; [reflexivity |].
  cbn [omap list_omap List.filter]. unfold parsedEntry at 1, wellFormed at 1.
  destruct (NewMultiAddressFromString (msgMultiAddress entry));
    cbn [length]; rewrite <- IH; reflexivity.
Qed.

(** C6.  When the backoff ends with a response, [Query] succeeds and
    returns the records of the well-formed entries, each with the nonce and
    the signature of its entry, in the order of the response; the malformed
    entries are left out.  There is one record per well-formed entry, so a
    response of one well-formed and one malformed entry, in either order,
    gives exactly the one record. *)
Theorem Query_skips_malformed client ctx to query t conn entries t1 :
  query <> "" ->
  net_Dial net t ctx to = inl conn ->
  Backoff ctx (queryAttempt conn ctx {| QueryRequest_Address := query |})
    (t ++ [EvDial ctx to])
  = (Ret (Some {| QueryResponse_MultiAddresses := Some <$> entries |}, None), t1) ->
  fst (swarmClient_Query client ctx to query t) = Ret (omap parsedEntry entries, None)
  /\ length (omap parsedEntry entries) = length (List.filter wellFormed entries)
  /\ (forall good bad record,
        parsedEntry good = Some record -> parsedEntry bad = None ->
        entries = [good; bad] \/ entries = [bad; good] ->
        fst (swarmClient_Query client ctx to query t) = Ret ([record], None)).
Proof.
  intros Hq Hdial Hback.
  assert (fst (swarmClient_Query client ctx to query t)
          = Ret (omap parsedEntry entries, None)) as Hres.
  { rewrite Query_dialled, Hdial by exact Hq.
    unfold defer, mbind at 1, M_bind at 1. rewrite Hback. simpl.
    destruct (parseResponse_omap entries [] t1) as (d & E).
    unfold mbind, M_bind. rewrite E. reflexivity. }
  split; [exact Hres | split; [apply omap_parsedEntry_length |]].
  intros good bad record Hg Hb [-> | ->]; rewrite Hres; simpl; rewrite Hg, Hb; reflexivity.
Qed.

(** *** The service: Query *)

Lemma fillMessages_app multiAddrs :
  forall (done : list (option grpc_MultiAddress)),
    fillMessages (length done) multiAddrs (done ++ replicate (length multiAddrs) None)
    = done ++ ((fun multiAddr => Some (toMessage multiAddr)) <$> multiAddrs).
Proof.
  induction multiAddrs as [| multiAddr rest IH]; intros done; [reflexivity |].
  cbn [fillMessages length replicate fmap list_fmap].
  replace (length done) with (length done + 0)%nat at 2 by lia.
  rewrite insert_app_r. cbn [insert list_insert].
  specialize (IH (done ++ [Some (toMessage multiAddr)])).
  rewrite length_app, <- !app_assoc in IH. cbn [length app] in IH.
  replace (length done + 1)%nat with (S (length done)) in IH by lia.
  exact IH.
Qed.

Lemma fillMessages_fmap multiAddrs :
  fillMessages 0 multiAddrs (replicate (length multiAddrs) None)
  = (fun multiAddr => Some (toMessage multiAddr)) <$> multiAddrs.
Proof. exact (fillMessages_app multiAddrs []). Qed.

(** C4.  The service's [Query]: a nil request fails with
    [ErrQueryRequestIsNil] and an empty identifier with [ErrAddressIsNil],
    both with a nil response and before any call into the swarm.Server; an
    error of the swarm.Server's [Query] is returned as it is, with a nil
    response; and on success the response holds, for each multi-address the
    swarm.Server returned and in its order, one message with the string,
    the signature and the nonce of that multi-address. *)
Theorem Query_service_contract service ctx t :
  SwarmService_Query service ctx None t = (Ret (None, Some ErrQueryRequestIsNil), t)
  /\ SwarmService_Query service ctx (Some {| QueryRequest_Address := "" |}) t
     = (Ret (None, Some ErrAddressIsNil), t)
  /\ (forall target err,
        target <> "" ->
        Server_Query (server service) t ctx target = inr err ->
        SwarmService_Query service ctx (Some {| QueryRequest_Address := target |}) t
        = (Ret (None, Some err), t ++ [EvServerQuery ctx target]))
  /\ (forall target multiAddrs,
        target <> "" ->
        Server_Query (server service) t ctx target = inl multiAddrs ->
        SwarmService_Query service ctx (Some {| QueryRequest_Address := target |}) t
        = (Ret (Some {| QueryResponse_MultiAddresses :=
                          (fun multiAddr =>
                             Some {| msgSignature := Signature multiAddr;
                                     msgMultiAddress := MultiAddress_String multiAddr;
                                     msgMultiAddressNonce := Nonce multiAddr |})
                          <$> multiAddrs |},
                None),
           t ++ [EvServerQuery ctx target])).
Proof.
  split; [reflexivity | split; [reflexivity | split]].
  - intros target err Ht Hs. unfold SwarmService_Query. cbn [QueryRequest_Address].
    case_decide; [contradiction |].
    unfold mbind, M_bind, server_Query, call. cbn [QueryRequest_GetAddress QueryRequest_Address].
    rewrite Hs. reflexivity.
  - intros target multiAddrs Ht Hs. unfold SwarmService_Query. cbn [QueryRequest_Address].
    case_decide; [contradiction |].
    unfold mbind, M_bind, server_Query, call. cbn [QueryRequest_GetAddress QueryRequest_Address].
    rewrite Hs, fillMessages_fmap. reflexivity.
Qed.

(** *** The service: Ping and Pong *)

(** What [Ping] does once the address string of its request has parsed. *)
Lemma Ping_delegates service ctx multiAddrMsg multiAddr t :
  NewMultiAddressFromString (msgMultiAddress multiAddrMsg) = inl multiAddr ->
  SwarmService_Ping service ctx
    (Some {| PingRequest_MultiAddress := Some multiAddrMsg |}) t
  = match Server_Ping (server service) t ctx
            {| Signature := msgSignature multiAddrMsg;
               Nonce := msgMultiAddressNonce multiAddrMsg;
               baseMultiAddress := baseMultiAddress multiAddr |} with
    | None =>
        (Ret (Some mkPingResponse, None),
         t ++ [EvServerPing ctx
                 {| Signature := msgSignature multiAddrMsg;
                    Nonce := msgMultiAddressNonce multiAddrMsg;
                    baseMultiAddress := baseMultiAddress multiAddr |}])
    | Some err =>
        (Ret (Some mkPingResponse, Some (Errorf "cannot update store: " err)),
         t ++ [EvServerPing ctx
                 {| Signature := msgSignature multiAddrMsg;
                    Nonce := msgMultiAddressNonce multiAddrMsg;
                    baseMultiAddress := baseMultiAddress multiAddr |};
               EvLog LevelInfo ("cannot update store with: " +:+ Error err)])
    end.
Proof.
  intros Hp. unfold SwarmService_Ping.
  cbn [PingRequest_MultiAddress PingRequest_GetMultiAddress GetMultiAddress
       GetSignature GetMultiAddressNonce].
  rewrite Hp. unfold mbind, M_bind, server_Ping, call, set_Nonce, set_Signature.
  cbn [Signature Nonce baseMultiAddress].
  destruct (Server_Ping _ _ _ _) as [err |]; [| reflexivity].
  unfold logger_Network, emit, mret, M_ret. rewrite <- app_assoc. reflexivity.
Qed.

Lemma Pong_delegates service ctx multiAddrMsg multiAddr t :
  NewMultiAddressFromString (msgMultiAddress multiAddrMsg) = inl multiAddr ->
  SwarmService_Pong service ctx
    (Some {| PongRequest_MultiAddress := Some multiAddrMsg |}) t
  = match Server_Pong (server service) t ctx
            {| Signature := msgSignature multiAddrMsg;
               Nonce := msgMultiAddressNonce multiAddrMsg;
               baseMultiAddress := baseMultiAddress multiAddr |} with
    | None =>
        (Ret (Some mkPongResponse, None),
         t ++ [EvServerPong ctx
                 {| Signature := msgSignature multiAddrMsg;
                    Nonce := msgMultiAddressNonce multiAddrMsg;
                    baseMultiAddress := baseMultiAddress multiAddr |}])
    | Some err =>
        (Ret (Some mkPongResponse, Some (Errorf "cannot update storer: " err)),
         t ++ [EvServerPong ctx
                 {| Signature := msgSignature multiAddrMsg;
                    Nonce := msgMultiAddressNonce multiAddrMsg;
                    baseMultiAddress := baseMultiAddress multiAddr |};
               EvLog LevelInfo
                 ("cannot update storer with "
                    +:+ grpc_MultiAddress_String (Some multiAddrMsg)
                    +:+ ": " +:+ Error err)])
    end.
Proof.
  intros Hp. unfold SwarmService_Pong.
  cbn [PongRequest_MultiAddress PongRequest_GetMultiAddress GetMultiAddress
       GetSignature GetMultiAddressNonce].
  rewrite Hp. unfold mbind, M_bind, server_Pong, call, set_Nonce, set_Signature.
  cbn [Signature Nonce baseMultiAddress].
  destruct (Server_Pong _ _ _ _) as [err |]; [| reflexivity].
  unfold logger_Network, emit, mret, M_ret. rewrite <- app_assoc. reflexivity.
Qed.

Lemma Ping_malformed service ctx multiAddrMsg err t :
  NewMultiAddressFromString (msgMultiAddress multiAddrMsg) = inr err ->
  SwarmService_Ping service ctx
    (Some {| PingRequest_MultiAddress := Some multiAddrMsg |}) t
  = (Ret (None, Some (Errorf "cannot unmarshal multiaddress: " err)),
     t ++ [EvLog LevelError ("cannot unmarshal multiaddress: " +:+ Error err)]).
Proof.
  intros Hp. unfold SwarmService_Ping.
  cbn [PingRequest_MultiAddress PingRequest_GetMultiAddress GetMultiAddress].
  rewrite Hp. reflexivity.
Qed.

Lemma Pong_malformed service ctx multiAddrMsg err t :
  NewMultiAddressFromString (msgMultiAddress multiAddrMsg) = inr err ->
  SwarmService_Pong service ctx
    (Some {| PongRequest_MultiAddress := Some multiAddrMsg |}) t
  = (Ret (None, Some (Errorf "cannot unmarshal multiaddress: " err)),
     t ++ [EvLog LevelError ("cannot unmarshal multiaddress: " +:+ Error err)]).
Proof.
  intros Hp. unfold SwarmService_Pong.
  cbn [PongRequest_MultiAddress PongRequest_GetMultiAddress GetMultiAddress].
  rewrite Hp. reflexivity.
Qed.

(** C5.  The service's [Ping]: a nil request fails with
    [ErrPingRequestIsNil] and a request without its multi-address with
    [ErrMultiAddressIsNil], both with a nil response and nothing done; a
    malformed address string fails with "cannot unmarshal multiaddress",
    with a nil response and after a log line only, so without a call into
    the swarm.Server; otherwise the first thing done is the swarm.Server's
    [Ping], on the multi-address parsed from the string with the signature
    and the nonce of the request. *)
Theorem Ping_service_contract service ctx t :
  SwarmService_Ping service ctx None t = (Ret (None, Some ErrPingRequestIsNil), t)
  /\ SwarmService_Ping service ctx (Some {| PingRequest_MultiAddress := None |}) t
     = (Ret (None, Some ErrMultiAddressIsNil), t)
  /\ (forall multiAddrMsg err,
        NewMultiAddressFromString (msgMultiAddress multiAddrMsg) = inr err ->
        SwarmService_Ping service ctx
          (Some {| PingRequest_MultiAddress := Some multiAddrMsg |}) t
        = (Ret (None, Some (Errorf "cannot unmarshal multiaddress: " err)),
           t ++ [EvLog LevelError ("cannot unmarshal multiaddress: " +:+ Error err)]))
  /\ (forall multiAddrMsg multiAddr,
        NewMultiAddressFromString (msgMultiAddress multiAddrMsg) = inl multiAddr ->
        exists r logged,
          SwarmService_Ping service ctx
            (Some {| PingRequest_MultiAddress := Some multiAddrMsg |}) t
          = (r, t ++ EvServerPing ctx
                       {| Signature := msgSignature multiAddrMsg;
                          Nonce := msgMultiAddressNonce multiAddrMsg;
                          baseMultiAddress := baseMultiAddress multiAddr |}
                     :: logged)
          /\ count isServer logged = 0%nat).
Proof.
  split; [reflexivity | split; [reflexivity | split]].
  - intros multiAddrMsg err Hp. apply Ping_malformed, Hp.
  - intros multiAddrMsg multiAddr Hp. rewrite (Ping_delegates _ _ _ _ _ Hp).
    destruct (Server_Ping _ _ _ _) as [err |]; eexists _, _; split; reflexivity.
Qed.

(** C10.  [Ping] and [Pong] of the service are the same handler up to the
    method of the swarm.Server they end in.  On a nil request each fails
    with the nil-request error of its own kind; on a request without a
    multi-address both fail with [ErrMultiAddressIsNil]; on a malformed
    address string both fail with the same error after the same log line;
    all of these with a nil response.  Otherwise both hand the same
    multi-address, with the signature and the nonce of the request, to the
    swarm.Server, [Ping] to its [Ping] and [Pong] to its [Pong]; both answer
    an acceptance with an empty response and no error, and a rejection with
    an empty response, not a nil one, and an error that wraps the
    swarm.Server's. *)
Theorem Ping_Pong_equivalent service ctx t :
  (SwarmService_Ping service ctx None t = (Ret (None, Some ErrPingRequestIsNil), t)
   /\ SwarmService_Pong service ctx None t = (Ret (None, Some ErrPongRequestIsNil), t))
  /\ (SwarmService_Ping service ctx (Some {| PingRequest_MultiAddress := None |}) t
      = (Ret (None, Some ErrMultiAddressIsNil), t)
      /\ SwarmService_Pong service ctx (Some {| PongRequest_MultiAddress := None |}) t
         = (Ret (None, Some ErrMultiAddressIsNil), t))
  /\ (forall multiAddrMsg err,
        NewMultiAddressFromString (msgMultiAddress multiAddrMsg) = inr err ->
        SwarmService_Ping service ctx
          (Some {| PingRequest_MultiAddress := Some multiAddrMsg |}) t
        = (Ret (None, Some (Errorf "cannot unmarshal multiaddress: " err)),
           t ++ [EvLog LevelError ("cannot unmarshal multiaddress: " +:+ Error err)])
        /\ SwarmService_Pong service ctx
             (Some {| PongRequest_MultiAddress := Some multiAddrMsg |}) t
           = (Ret (None, Some (Errorf "cannot unmarshal multiaddress: " err)),
              t ++ [EvLog LevelError ("cannot unmarshal multiaddress: " +:+ Error err)]))
  /\ (forall multiAddrMsg multiAddr,
        NewMultiAddressFromString (msgMultiAddress multiAddrMsg) = inl multiAddr ->
        exists from pinged ponged,
          from = {| Signature := msgSignature multiAddrMsg;
                    Nonce := msgMultiAddressNonce multiAddrMsg;
                    baseMultiAddress := baseMultiAddress multiAddr |}
          /\ SwarmService_Ping service ctx
               (Some {| PingRequest_MultiAddress := Some multiAddrMsg |}) t
             = (Ret (Some mkPingResponse,
                     Errorf "cannot update store: "
                       <$> Server_Ping (server service) t ctx from),
                t ++ EvServerPing ctx from :: pinged)
          /\ SwarmService_Pong service ctx
               (Some {| PongRequest_MultiAddress := Some multiAddrMsg |}) t
             = (Ret (Some mkPongResponse,
                     Errorf "cannot update storer: "
                       <$> Server_Pong (server service) t ctx from),
                t ++ EvServerPong ctx from :: ponged)
          /\ count isServer pinged = 0%nat /\ count isServer ponged = 0%nat).
Proof.
  split; [split; reflexivity | split; [split; reflexivity | split]].
  - intros multiAddrMsg err Hp. split; [apply Ping_malformed | apply Pong_malformed]; exact Hp.
  - intros multiAddrMsg multiAddr Hp.
    rewrite (Ping_delegates _ _ _ _ _ Hp), (Pong_delegates _ _ _ _ _ Hp).
    destruct (Server_Ping _ _ _ _) as [e1 |] eqn:E1,
             (Server_Pong _ _ _ _) as [e2 |] eqn:E2;
      eexists _, _, _; (split; [reflexivity |]); rewrite E1, E2;
      (split; [cbn; reflexivity |]); (split; [cbn; reflexivity |]); split; reflexivity.
Qed.

(** *** The service: no throttling *)

Ltac never_throttled :=
  split;
  [ let H := fresh in
    intros H;
    first [ unfold count in H; simpl in H; discriminate H
          | unfold validationRejection; cbn [fst];
            solve [ repeat (first [left; reflexivity | right]); eexists; reflexivity ] ]
  | let H := fresh in
    intros H; first [ discriminate H | eauto ] ].

Lemma validationRejection_not_rate_limit :
  ~ validationRejection (Some ErrRateLimitExceeded).
Proof.
  intros [H | [H | [H | [H | [H | [e H]]]]]]; discriminate H.
Qed.

Lemma answer_neverThrottled service req t :
  exists err d, answer service req t = (Ret err, t ++ d) /\ neverThrottled (err, d).
Proof.
  destruct req as [ctx [[[multiAddrMsg |]] |] | ctx [[[multiAddrMsg |]] |] | ctx [[target] |]];
    unfold answer, mbind at 1, M_bind at 1.
  - destruct (NewMultiAddressFromString (msgMultiAddress multiAddrMsg)) as [multiAddr | err] eqn:Hp.
    + rewrite (Ping_delegates _ _ _ _ _ Hp).
      destruct (Server_Ping _ _ _ _) as [err |]; eexists _, _; (split; [reflexivity |]);
        never_throttled.
    + rewrite (Ping_malformed _ _ _ _ _ Hp). eexists _, _; split; [reflexivity |].
      never_throttled.
  - exists (Some ErrMultiAddressIsNil), []. rewrite app_nil_r. split; [reflexivity |].
    never_throttled.
  - exists (Some ErrPingRequestIsNil), []. rewrite app_nil_r. split; [reflexivity |].
    never_throttled.
  - destruct (NewMultiAddressFromString (msgMultiAddress multiAddrMsg)) as [multiAddr | err] eqn:Hp.
    + rewrite (Pong_delegates _ _ _ _ _ Hp).
      destruct (Server_Pong _ _ _ _) as [err |]; eexists _, _; (split; [reflexivity |]);
        never_throttled.
    + rewrite (Pong_malformed _ _ _ _ _ Hp). eexists _, _; split; [reflexivity |].
      never_throttled.
  - exists (Some ErrMultiAddressIsNil), []. rewrite app_nil_r. split; [reflexivity |].
    never_throttled.
  - exists (Some ErrPongRequestIsNil), []. rewrite app_nil_r. split; [reflexivity |].
    never_throttled.
  - unfold SwarmService_Query. cbn [QueryRequest_Address QueryRequest_GetAddress].
    case_decide.
    + exists (Some ErrAddressIsNil), []. rewrite app_nil_r. split; [reflexivity |].
      never_throttled.
    + unfold mbind, M_bind, server_Query, call.
      destruct (Server_Query _ _ _ _) as [multiAddrs | err];
        eexists _, _; (split; [reflexivity |]); never_throttled.
  - exists (Some ErrQueryRequestIsNil), []. rewrite app_nil_r. split; [reflexivity |].
    never_throttled.
Qed.

Lemma handle_neverThrottled service req t :
  exists out, handle service req t = (Ret out, t ++ snd out) /\ neverThrottled out.
Proof.
  destruct (answer_neverThrottled service req t) as (err & d & E & N).
  exists (err, d). unfold handle. rewrite E, drop_app_length. split; [reflexivity | exact N].
Qed.

Lemma serve_neverThrottled service reqs :
  forall t, exists outs t',
    serve service reqs t = (Ret outs, t')
    /\ length outs = length reqs
    /\ Forall neverThrottled outs.
Proof.
  induction reqs as [| req rest IH]; intros t.
  - exists [], t. repeat split. constructor.
  - destruct (handle_neverThrottled service req t) as (out & E & N).
    destruct (IH (t ++ snd out)) as (outs & t' & E' & L & F).
    exists (out :: outs), t'. cbn [serve]. unfold mbind, M_bind. rewrite E, E'.
    split; [reflexivity | split; [simpl; rewrite L; reflexivity | constructor; assumption]].
Qed.

(** C2.  The code has no throttle, against the comment of
    [ErrRateLimitExceeded], which says that the error is returned when the
    same client sends more than one request within the rate limit.
    Whatever the requests, their callers and their pace: an answer that the
    service gives without a call into the swarm.Server is one of the
    rejections of the validation (a nil request, a nil multi-address, an
    empty identifier, an address string that does not parse), so never
    [ErrRateLimitExceeded]; and [ErrRateLimitExceeded] is returned only
    where the swarm.Server's own [Query] was called and the service passed
    its error on. *)
Theorem service_never_throttles service reqs t :
  exists outs t',
    serve service reqs t = (Ret outs, t')
    /\ length outs = length reqs
    /\ Forall neverThrottled outs
    /\ (forall d, (Some ErrRateLimitExceeded, d) ∈ outs -> count isServer d = 1%nat).
Proof.
  destruct (serve_neverThrottled service reqs t) as (outs & t' & E & L & F).
  exists outs, t'. repeat split; try assumption.
  intros d Hin. rewrite Forall_forall in F.
  destruct (F _ Hin) as [_ H]. destruct (H eq_refl) as (ctx & query & Hd).
  simpl in Hd. rewrite Hd. reflexivity.
Qed.

(** ** More of the client *)

Lemma defer_adds {A} (P : Event -> Prop) conn (body : M A) t :
  adds P body ->
  exists d, snd (defer (conn_Close conn) body t) = t ++ d ++ [EvClose conn] /\ Forall P d.
Proof.
  intros Hb. unfold defer. destruct (Hb t) as (d & E & F).
  destruct (body t) as [r t1]; simpl in *; subst t1.
  exists d. split; [| exact F]. rewrite <- app_assoc. reflexivity.
Qed.

Lemma adds_weaken (P Q : Event -> Prop) {A} (m : M A) :
  (forall e, P e -> Q e) -> adds P m -> adds Q m.
Proof.
  intros HPQ Hm t. destruct (Hm t) as (d & E & F). exists d. split; [exact E |].
  eapply Forall_impl; eassumption.
Qed.

(** X1.  Every RPC that a [Ping] issues goes over the connection it
    dialled, in the context of the call, and carries the signature, the
    canonical string and the nonce of the multi-address to announce; between
    the dial and the close there is nothing but these invocations and the
    delays of the backoff.  The same holds of [Query] and the identifier it
    asks for, with the log lines of its parsing besides. *)
Theorem requests_of_Ping_and_Query client ctx to multiAddr query t conn :
  net_Dial net t ctx to = inl conn ->
  IsNil multiAddr = false ->
  query <> "" ->
  (exists d,
     snd (swarmClient_Ping client ctx to multiAddr t)
     = t ++ EvDial ctx to :: d ++ [EvClose conn]
     /\ Forall (attemptOf
                  (EvInvokePing conn ctx
                     {| PingRequest_MultiAddress :=
                          Some {| msgSignature := Signature multiAddr;
                                  msgMultiAddress := MultiAddress_String multiAddr;
                                  msgMultiAddressNonce := Nonce multiAddr |} |})) d)
  /\ (exists d,
        snd (swarmClient_Query client ctx to query t)
        = t ++ EvDial ctx to :: d ++ [EvClose conn]
        /\ Forall (attemptOrLog
                     (EvInvokeQuery conn ctx {| QueryRequest_Address := query |})) d).
Proof.
  intros Hdial Hnil Hq. split.
  - rewrite Ping_dialled, Hdial by exact Hnil.
    assert (adds (attemptOf
                    (EvInvokePing conn ctx
                       {| PingRequest_MultiAddress := Some (toMessage multiAddr) |}))
              ('(_, err) ← Backoff ctx
                  (pingAttempt conn ctx
                     {| PingRequest_MultiAddress := Some (toMessage multiAddr) |});
               mret err)) as Hb.
    { apply adds_bind.
      - apply adds_Backoff; [intros k; right; reflexivity |].
        apply adds_bind; [apply adds_call; left; reflexivity |].
        intros r. apply adds_ret.
      - intros [u e]. apply adds_ret. }
    destruct (defer_adds _ conn _ (t ++ [EvDial ctx to]) Hb) as (d & E & F).
    exists d. split; [| exact F]. rewrite E, <- app_assoc. reflexivity.
  - rewrite Query_dialled, Hdial by exact Hq.
    assert (adds (attemptOrLog
                    (EvInvokeQuery conn ctx {| QueryRequest_Address := query |}))
              ('(response, err) ← Backoff ctx
                  (queryAttempt conn ctx {| QueryRequest_Address := query |});
               match err with
               | Some err => mret ([], Some err)
               | None =>
                   match response with
                   | None => panic "invalid memory address or nil pointer dereference"
                   | Some response =>
                       multiAddrs ← parseResponse
                                      (QueryResponse_MultiAddresses response) [];
                       mret (multiAddrs, None)
                   end
               end)) as Hb.
    { apply adds_bind.
      - apply adds_Backoff; [intros k; right; left; reflexivity |].
        apply adds_bind; [apply adds_call; left; reflexivity |].
        intros r. apply adds_ret.
      - intros [[response |] [e |]]; try apply adds_ret; [| apply adds_panic].
        apply adds_bind; [| intros multiAddrs; apply adds_ret].
        apply adds_parseResponse. intros lvl msg. right; right; reflexivity. }
    destruct (defer_adds _ conn _ (t ++ [EvDial ctx to]) Hb) as (d & E & F).
    exists d. split; [| exact F]. rewrite E, <- app_assoc. reflexivity.
Qed.

(** X2.  [Pong] reads its record from the store once, under the address
    of the client and right after the dial; every RPC it then issues goes
    over the dialled connection, in the context of the call, and carries the
    signature, the canonical string and the nonce of that record. *)
Theorem requests_of_Pong client ctx to t conn self :
  net_Dial net t ctx to = inl conn ->
  storer_MultiAddress (store client) (t ++ [EvDial ctx to]) (addr client) = inl self ->
  exists d,
    snd (swarmClient_Pong client ctx to t)
    = t ++ EvDial ctx to :: EvStore (addr client) :: d ++ [EvClose conn]
    /\ Forall (attemptOf
                 (EvInvokePong conn ctx
                    {| PongRequest_MultiAddress :=
                         Some {| msgSignature := Signature self;
                                 msgMultiAddress := MultiAddress_String self;
                                 msgMultiAddressNonce := Nonce self |} |})) d.
Proof.
  intros Hdial Hstore. rewrite Pong_dialled, Hdial.
  assert (adds (attemptOf (EvInvokePong conn ctx
                             {| PongRequest_MultiAddress := Some (toMessage self) |}))
            ('(_, err) ← Backoff ctx
                (pongAttempt conn ctx
                   {| PongRequest_MultiAddress := Some (toMessage self) |});
             mret err)) as Hb.
  { apply adds_bind.
    - apply adds_Backoff; [intros k; right; reflexivity |].
      apply adds_bind; [apply adds_call; left; reflexivity |].
      intros r. apply adds_ret.
    - intros [u e]. apply adds_ret. }
  destruct (Hb ((t ++ [EvDial ctx to]) ++ [EvStore (addr client)])) as (d & E & F).
  exists d. split; [| exact F].
  unfold defer, mbind at 1, M_bind at 1, store_MultiAddress, call. rewrite Hstore.
  cbn beta iota.
  match goal with
  | |- context [let '(_, _) := ?x in _] => destruct x as [r t1]
  end.
  simpl in E. subst t1. simpl. rewrite <- !app_assoc. reflexivity.
Qed.

(** X3.  [Query] never returns records together with an error: whenever
    it returns an error, be it for an empty identifier, a failed dial or an
    RPC that failed to the end, the list it returns is empty. *)
Theorem Query_error_without_records client ctx to query t records err :
  fst (swarmClient_Query client ctx to query t) = Ret (records, Some err) ->
  records = [].
Proof.
  destruct (decide (query = "")) as [-> | Hq].
  - intros H. inversion H. reflexivity.
  - rewrite Query_dialled by exact Hq.
    destruct (net_Dial net t ctx to) as [conn | e].
    + unfold defer, mbind at 1, M_bind at 1.
      destruct (Backoff ctx _ _) as [[[response [e |]] | msg] t1]; cbn.
      * intros H. inversion H. reflexivity.
      * destruct response as [response |]; [| discriminate].
        unfold mbind, M_bind.
        destruct (parseResponse _ _ _) as [[multiAddrs | msg] t2]; cbn; discriminate.
      * discriminate.
    + cbn. intros H. inversion H. reflexivity.
Qed.

Lemma parseResponse_warnings (entries : list grpc_MultiAddress) :
  forall multiAddrs t,
    parseResponse (Some <$> entries) multiAddrs t
    = (Ret (multiAddrs ++ omap parsedEntry entries), t ++ omap warning entries).
Proof.
  induction entries as [| entry rest IH]; intros multiAddrs t.
  - simpl. rewrite !app_nil_r. reflexivity.
  - cbn [fmap list_fmap parseResponse omap list_omap].
    unfold parsedEntry at 1, warning at 1.
    destruct (NewMultiAddressFromString (msgMultiAddress entry)) as [multiAddr | err].
    + rewrite IH, <- app_assoc. reflexivity.
    + unfold mbind, M_bind, logger_Network, emit. rewrite IH, <- app_assoc. reflexivity.
Qed.

Lemma parsed_or_warned (entries : list grpc_MultiAddress) :
  (length (omap parsedEntry entries) + length (omap warning entries))%nat
  = length entries.
Proof.
  induction entries as [| entry rest IH]; [reflexivity |].
  cbn [omap list_omap]. unfold parsedEntry at 1, warning at 1.
  destruct (NewMultiAddressFromString (msgMultiAddress entry)); cbn [length]; lia.
Qed.

(** X4.  When the backoff ends with a response, everything [Query] does
    after it is to log one warning for each malformed entry, in the order of
    the response and naming the entry's string and the parser's error, and
    then to close the connection.  Each entry of the response is accounted
    for: it gives either a record or a warning, never both and never
    neither. *)
Theorem Query_warns_per_malformed client ctx to query t conn entries t1 :
  query <> "" ->
  net_Dial net t ctx to = inl conn ->
  Backoff ctx (queryAttempt conn ctx {| QueryRequest_Address := query |})
    (t ++ [EvDial ctx to])
  = (Ret (Some {| QueryResponse_MultiAddresses := Some <$> entries |}, None), t1) ->
  snd (swarmClient_Query client ctx to query t)
  = t1 ++ omap warning entries ++ [EvClose conn]
  /\ (length (omap parsedEntry entries) + length (omap warning entries))%nat
     = length entries.
Proof.
  intros Hq Hdial Hback. split; [| apply parsed_or_warned].
  rewrite Query_dialled, Hdial by exact Hq.
  unfold defer, mbind at 1, M_bind at 1. rewrite Hback. cbn beta iota.
  unfold mbind, M_bind. cbn [QueryResponse_MultiAddresses].
  rewrite parseResponse_warnings. cbn. rewrite <- app_assoc. reflexivity.
Qed.

(** ** The client and the service, end to end *)

(** X5.  What the client's [Ping] and [Pong] put in their request for a
    multi-address is read back by the service's handlers as that very
    multi-address: when the canonical string of the multi-address parses
    back to its address, the first thing each handler does is to hand the
    swarm.Server the multi-address the client announced, signature and nonce
    included. *)
Theorem announced_is_delivered service ctx multiAddr t :
  roundTrips multiAddr ->
  (exists r logged,
     SwarmService_Ping service ctx
       (Some {| PingRequest_MultiAddress := Some (toMessage multiAddr) |}) t
     = (r, t ++ EvServerPing ctx multiAddr :: logged))
  /\ (exists r logged,
        SwarmService_Pong service ctx
          (Some {| PongRequest_MultiAddress := Some (toMessage multiAddr) |}) t
        = (r, t ++ EvServerPong ctx multiAddr :: logged)).
Proof.
  intros (parsed & Hp & Hb).
  assert ({| Signature := msgSignature (toMessage multiAddr);
             Nonce := msgMultiAddressNonce (toMessage multiAddr);
             baseMultiAddress := baseMultiAddress parsed |} = multiAddr) as Hsame.
  { destruct multiAddr. simpl in *. rewrite Hb. reflexivity. }
  split.
  - rewrite (Ping_delegates service ctx (toMessage multiAddr) parsed t Hp), Hsame.
    destruct (Server_Ping _ _ _ _); eexists _, _; reflexivity.
  - rewrite (Pong_delegates service ctx (toMessage multiAddr) parsed t Hp), Hsame.
    destruct (Server_Pong _ _ _ _); eexists _, _; reflexivity.
Qed.

Lemma parsedEntry_toMessage multiAddr :
  roundTrips multiAddr -> parsedEntry (toMessage multiAddr) = Some multiAddr.
Proof.
  intros (parsed & Hp & Hb). unfold parsedEntry. cbn [toMessage msgMultiAddress].
  rewrite Hp. destruct multiAddr. simpl in *. rewrite Hb. reflexivity.
Qed.

Lemma warning_toMessage multiAddr :
  roundTrips multiAddr -> warning (toMessage multiAddr) = None.
Proof.
  intros (parsed & Hp & Hb). unfold warning. cbn [toMessage msgMultiAddress].
  rewrite Hp. reflexivity.
Qed.

Lemma roundTrips_omap multiAddrs :
  Forall roundTrips multiAddrs ->
  omap parsedEntry (toMessage <$> multiAddrs) = multiAddrs
  /\ omap warning (toMessage <$> multiAddrs) = [].
Proof.
  induction multiAddrs as [| multiAddr rest IH]; intros Hrt; [split; reflexivity |].
  inversion Hrt as [| ? ? H Hrest]; subst.
  destruct (IH Hrest) as [IH1 IH2].
  cbn [fmap list_fmap omap list_omap].
  rewrite (parsedEntry_toMessage _ H), (warning_toMessage _ H). cbn.
  split; [f_equal; exact IH1 | exact IH2].
Qed.

(** X6.  The response of the service's [Query], parsed by the loop of the
    client's [Query], gives back the multi-addresses of the swarm.Server, as
    many and in its order, and logs nothing, provided the canonical string
    of each parses back to its address. *)
Theorem found_is_returned service ctx target multiAddrs t t' :
  target <> "" ->
  Server_Query (server service) t ctx target = inl multiAddrs ->
  Forall roundTrips multiAddrs ->
  exists response,
    fst (SwarmService_Query service ctx (Some {| QueryRequest_Address := target |}) t)
    = Ret (Some response, None)
    /\ parseResponse (QueryResponse_MultiAddresses response) [] t'
       = (Ret multiAddrs, t').
Proof.
  intros Ht Hs Hrt.
  exists {| QueryResponse_MultiAddresses :=
              (fun multiAddr => Some (toMessage multiAddr)) <$> multiAddrs |}.
  split.
  - unfold SwarmService_Query. cbn [QueryRequest_Address QueryRequest_GetAddress].
    case_decide; [contradiction |].
    unfold mbind, M_bind, server_Query, call. rewrite Hs, fillMessages_fmap. reflexivity.
  - cbn [QueryResponse_MultiAddresses].
    replace ((fun multiAddr => Some (toMessage multiAddr)) <$> multiAddrs)
      with (Some <$> (toMessage <$> multiAddrs))
      by (rewrite <- list_fmap_compose; reflexivity).
    rewrite parseResponse_warnings.
    destruct (roundTrips_omap multiAddrs Hrt) as [-> ->].
    rewrite app_nil_r. reflexivity.
Qed.

(** ** More of the service *)

(** X7.  No handler of the service ever answers with a nil response and a
    nil error: a reply without an error has a response, and a reply without
    a response has an error.  A handler that did not call the swarm.Server
    answers with a nil response and an error; one that did call it called
    it first of all.  [Ping] and [Pong] answer every call into the
    swarm.Server with the empty response, which is not nil, and with an
    error exactly when the swarm.Server rejected, the error that wraps the
    swarm.Server's.  [Query] answers a failure of the
    swarm.Server with a nil response and the swarm.Server's error, and a
    success with a response and no error, so that for [Query] an error
    always comes with a nil response. *)
Theorem handlers_never_nil_nil service ctx t :
  (forall request, exists resp err d,
      SwarmService_Ping service ctx request t = (Ret (resp, err), t ++ d)
      /\ answered (resp, err)
      /\ (count isServer d = 0%nat -> resp = None /\ is_Some err)
      /\ (forall from rest,
            d = EvServerPing ctx from :: rest ->
            resp = Some mkPingResponse
            /\ err = Errorf "cannot update store: "
                       <$> Server_Ping (server service) t ctx from)
      /\ (count isServer d = 0%nat \/ exists from rest, d = EvServerPing ctx from :: rest))
  /\ (forall request, exists resp err d,
        SwarmService_Pong service ctx request t = (Ret (resp, err), t ++ d)
        /\ answered (resp, err)
        /\ (count isServer d = 0%nat -> resp = None /\ is_Some err)
        /\ (forall from rest,
              d = EvServerPong ctx from :: rest ->
              resp = Some mkPongResponse
              /\ err = Errorf "cannot update storer: "
                         <$> Server_Pong (server service) t ctx from)
        /\ (count isServer d = 0%nat \/ exists from rest, d = EvServerPong ctx from :: rest))
  /\ (forall request, exists resp err d,
        SwarmService_Query service ctx request t = (Ret (resp, err), t ++ d)
        /\ answered (resp, err)
        /\ (is_Some err -> resp = None)
        /\ (count isServer d = 0%nat -> resp = None /\ is_Some err)
        /\ (forall query rest,
              d = EvServerQuery ctx query :: rest ->
              match Server_Query (server service) t ctx query with
              | inl _ => is_Some resp /\ err = None
              | inr e => resp = None /\ err = Some e
              end)
        /\ (count isServer d = 0%nat
            \/ exists query rest, d = EvServerQuery ctx query :: rest)).
Proof.
  assert (forall R (r : R) (e : option error), answered (Some r, e)) as Hresp.
  { intros R r e. split; [eauto | discriminate]. }
  assert (forall R (e : error), answered (None : option R, Some e)) as Herr.
  { intros R e. split; [discriminate | eauto]. }
  split; [| split].
  - intros [[[multiAddrMsg |]] |].
    + destruct (NewMultiAddressFromString (msgMultiAddress multiAddrMsg))
        as [multiAddr | e] eqn:Hp.
      * rewrite (Ping_delegates _ _ _ _ _ Hp).
        destruct (Server_Ping _ _ _ _) as [e |] eqn:Hs;
          eexists _, _, _; (split; [reflexivity |]); (split; [apply Hresp |]);
          (split; [intros C; unfold count in C; simpl in C; discriminate C |]);
          (split; [| right; eauto]);
          intros from rest E; injection E as <- _; rewrite Hs; split; reflexivity.
      * rewrite (Ping_malformed _ _ _ _ _ Hp).
        eexists _, _, _; (split; [reflexivity |]); (split; [apply Herr |]).
        split; [intros _; split; [reflexivity | eauto] | split; [intros from rest E; discriminate E | left; reflexivity]].
    + exists None, (Some ErrMultiAddressIsNil), []. rewrite app_nil_r.
      split; [reflexivity |]. split; [apply Herr |].
      split; [intros _; split; [reflexivity | eauto] | split; [intros from rest E; discriminate E | left; reflexivity]].
    + exists None, (Some ErrPingRequestIsNil), []. rewrite app_nil_r.
      split; [reflexivity |]. split; [apply Herr |].
      split; [intros _; split; [reflexivity | eauto] | split; [intros from rest E; discriminate E | left; reflexivity]].
  - intros [[[multiAddrMsg |]] |].
    + destruct (NewMultiAddressFromString (msgMultiAddress multiAddrMsg))
        as [multiAddr | e] eqn:Hp.
      * rewrite (Pong_delegates _ _ _ _ _ Hp).
        destruct (Server_Pong _ _ _ _) as [e |] eqn:Hs;
          eexists _, _, _; (split; [reflexivity |]); (split; [apply Hresp |]);
          (split; [intros C; unfold count in C; simpl in C; discriminate C |]);
          (split; [| right; eauto]);
          intros from rest E; injection E as <- _; rewrite Hs; split; reflexivity.
      * rewrite (Pong_malformed _ _ _ _ _ Hp).
        eexists _, _, _; (split; [reflexivity |]); (split; [apply Herr |]).
        split; [intros _; split; [reflexivity | eauto] | split; [intros from rest E; discriminate E | left; reflexivity]].
    + exists None, (Some ErrMultiAddressIsNil), []. rewrite app_nil_r.
      split; [reflexivity |]. split; [apply Herr |].
      split; [intros _; split; [reflexivity | eauto] | split; [intros from rest E; discriminate E | left; reflexivity]].
    + exists None, (Some ErrPongRequestIsNil), []. rewrite app_nil_r.
      split; [reflexivity |]. split; [apply Herr |].
      split; [intros _; split; [reflexivity | eauto] | split; [intros from rest E; discriminate E | left; reflexivity]].
  - intros [[target] |].
    + unfold SwarmService_Query. cbn [QueryRequest_Address QueryRequest_GetAddress].
      case_decide.
      * exists None, (Some ErrAddressIsNil), []. rewrite app_nil_r.
        split; [reflexivity |]. split; [apply Herr |]. split; [reflexivity |].
        split; [intros _; split; [reflexivity | eauto] | split; [intros q rest E; discriminate E | left; reflexivity]].
      * unfold mbind, M_bind, server_Query, call.
        destruct (Server_Query _ _ _ _) as [multiAddrs | e] eqn:Hs;
          eexists _, _, _; (split; [reflexivity |]).
        -- split; [apply Hresp |]. split; [intros [x Hx]; discriminate Hx |].
           split; [intros C; unfold count in C; simpl in C; discriminate C |].
           split; [| right; eauto].
           intros q rest E. injection E as <- _. rewrite Hs. split; [eauto | reflexivity].
        -- split; [apply Herr |]. split; [reflexivity |].
           split; [intros C; unfold count in C; simpl in C; discriminate C |].
           split; [| right; eauto].
           intros q rest E. injection E as <- _. rewrite Hs. split; reflexivity.
    + exists None, (Some ErrQueryRequestIsNil), []. rewrite app_nil_r.
      split; [reflexivity |]. split; [apply Herr |]. split; [reflexivity |].
      split; [intros _; split; [reflexivity | eauto] | split; [intros q rest E; discriminate E | left; reflexivity]].
Qed.

Ltac server_or_log :=
  repeat split;
  try (repeat constructor; first [left; reflexivity | right; reflexivity]);
  try (unfold count; simpl; lia);
  try discriminate.

(** X8.  Serving a request, the service does nothing but call the
    swarm.Server and write log lines: it never dials, invokes an RPC, reads
    the store or sleeps.  It calls the swarm.Server at most once for a
    request; a request is answered without an error only after exactly one
    such call, and then nothing is logged. *)
Theorem service_calls_server_at_most_once service req t :
  exists err d,
    answer service req t = (Ret err, t ++ d)
    /\ Forall (fun e => isServer e = true \/ isLog e = true) d
    /\ (count isServer d <= 1)%nat
    /\ (err = None -> count isServer d = 1%nat /\ count isLog d = 0%nat).
Proof.
  destruct req as [ctx [[[multiAddrMsg |]] |] | ctx [[[multiAddrMsg |]] |] | ctx [[target] |]];
    unfold answer, mbind at 1, M_bind at 1.
  - destruct (NewMultiAddressFromString (msgMultiAddress multiAddrMsg))
      as [multiAddr | err] eqn:Hp.
    + rewrite (Ping_delegates _ _ _ _ _ Hp).
      destruct (Server_Ping _ _ _ _) as [err |]; eexists _, _; (split; [reflexivity |]);
        server_or_log.
    + rewrite (Ping_malformed _ _ _ _ _ Hp). eexists _, _; split; [reflexivity |].
      server_or_log.
  - exists (Some ErrMultiAddressIsNil), []. rewrite app_nil_r. split; [reflexivity |].
    server_or_log.
  - exists (Some ErrPingRequestIsNil), []. rewrite app_nil_r. split; [reflexivity |].
    server_or_log.
  - destruct (NewMultiAddressFromString (msgMultiAddress multiAddrMsg))
      as [multiAddr | err] eqn:Hp.
    + rewrite (Pong_delegates _ _ _ _ _ Hp).
      destruct (Server_Pong _ _ _ _) as [err |]; eexists _, _; (split; [reflexivity |]);
        server_or_log.
    + rewrite (Pong_malformed _ _ _ _ _ Hp). eexists _, _; split; [reflexivity |].
      server_or_log.
  - exists (Some ErrMultiAddressIsNil), []. rewrite app_nil_r. split; [reflexivity |].
    server_or_log.
  - exists (Some ErrPongRequestIsNil), []. rewrite app_nil_r. split; [reflexivity |].
    server_or_log.
  - unfold SwarmService_Query. cbn [QueryRequest_Address QueryRequest_GetAddress].
    case_decide.
    + exists (Some ErrAddressIsNil), []. rewrite app_nil_r. split; [reflexivity |].
      server_or_log.
    + unfold mbind, M_bind, server_Query, call.
      destruct (Server_Query _ _ _ _) as [multiAddrs | err];
        eexists _, _; (split; [reflexivity |]); server_or_log.
  - exists (Some ErrQueryRequestIsNil), []. rewrite app_nil_r. split; [reflexivity |].
    server_or_log.
Qed.

(** ** More of the client: what it leaves alone *)

Lemma Ping_dialsOnce client ctx to multiAddr t :
  IsNil multiAddr = false ->
  dialsOnce t (snd (swarmClient_Ping client ctx to multiAddr t)).
Proof.
  intros Hnil. destruct (net_Dial net t ctx to) as [conn | err] eqn:Hd.
  - apply (released_dialsOnce t ctx to conn), Ping_released; assumption.
  - rewrite Ping_dialled, Hd by assumption. apply dial_failure_once.
Qed.

(** X9.  A [Ping] leaves no trace exactly when the multi-address to
    announce is nil.  For any other multi-address it dials: the first thing
    it does is the dial of the peer, in the context of the call, whoever the
    peer is and whatever becomes of the dial, and it dials no second time. *)
Theorem Ping_silent_iff_nil client ctx to multiAddr t :
  (snd (swarmClient_Ping client ctx to multiAddr t) = t <-> IsNil multiAddr = true)
  /\ (IsNil multiAddr = false ->
      exists d,
        snd (swarmClient_Ping client ctx to multiAddr t) = t ++ EvDial ctx to :: d
        /\ count isDial d = 0%nat).
Proof.
  split; [split |].
  - intros Hsame. destruct (IsNil multiAddr) eqn:Hnil; [reflexivity | exfalso].
    destruct (Ping_dialsOnce client ctx to multiAddr t Hnil) as (d & E & C).
    rewrite Hsame in E. rewrite <- (app_nil_r t) in E at 1.
    apply app_inv_head in E. subst d. discriminate C.
  - intros Hnil. unfold swarmClient_Ping. rewrite Hnil. reflexivity.
  - intros Hnil. destruct (net_Dial net t ctx to) as [conn | err] eqn:Hd.
    + destruct (Ping_released client ctx to multiAddr t conn Hd Hnil) as (d & E & Q).
      exists (d ++ [EvClose conn]). split; [exact E |].
      rewrite count_app, (count_quiet_dial d Q). reflexivity.
    + rewrite Ping_dialled, Hd by exact Hnil. eexists. split; reflexivity.
Qed.

Lemma adds_defer (P : Event -> Prop) {A} (cleanup : M unit) (body : M A) :
  adds P cleanup -> adds P body -> adds P (defer cleanup body).
Proof.
  intros Hc Hb t. unfold defer. destruct (Hb t) as (d & E & F).
  destruct (body t) as [r t1]; simpl in E; subst t1.
  destruct (Hc (t ++ d)) as (d' & E' & F').
  exists (d ++ d'). simpl. rewrite E', app_assoc. split; [reflexivity |].
  apply Forall_app; split; assumption.
Qed.

Lemma count_none (p : Event -> bool) d :
  Forall (fun e => p e = false) d -> count p d = 0%nat.
Proof.
  induction 1 as [| e d He _ IH]; [reflexivity |].
  unfold count in *. simpl. rewrite He. exact IH.
Qed.

Lemma Ping_reads_no_store client ctx to multiAddr :
  adds (fun e => isStore e = false) (swarmClient_Ping client ctx to multiAddr).
Proof.
  unfold swarmClient_Ping. destruct (IsNil multiAddr); [apply adds_ret |].
  apply adds_bind; [apply adds_call; reflexivity |].
  intros [conn | err].
  - apply adds_defer; [apply adds_emit; reflexivity |].
    apply adds_bind.
    + apply adds_Backoff; [reflexivity |].
      apply adds_bind; [apply adds_call; reflexivity | intros r; apply adds_ret].
    + intros [u e]. apply adds_ret.
  - apply adds_bind; [apply adds_emit; reflexivity | intros _; apply adds_ret].
Qed.

Lemma Query_reads_no_store client ctx to query :
  adds (fun e => isStore e = false) (swarmClient_Query client ctx to query).
Proof.
  unfold swarmClient_Query. case_decide; [apply adds_ret |].
  apply adds_bind; [apply adds_call; reflexivity |].
  intros [conn | err].
  - apply adds_defer; [apply adds_emit; reflexivity |].
    apply adds_bind.
    + apply adds_Backoff; [reflexivity |].
      apply adds_bind; [apply adds_call; reflexivity | intros r; apply adds_ret].
    + intros [[response |] [e |]]; try apply adds_ret; [| apply adds_panic].
      apply adds_bind; [| intros multiAddrs; apply adds_ret].
      apply adds_parseResponse. reflexivity.
  - apply adds_bind; [apply adds_emit; reflexivity | intros _; apply adds_ret].
Qed.

Lemma Pong_after_lookup_reads_no_store conn ctx (looked : MultiAddress + error) :
  adds (fun e => isStore e = false)
    (match looked with
     | inr err =>
         logger_Network LevelError ("cannot get self details: " +:+ Error err);;
         mret (Some (Errorf "cannot get self details: " err))
     | inl multiAddr =>
         '(_, err) ← Backoff ctx
             (pongAttempt conn ctx
                {| PongRequest_MultiAddress := Some (toMessage multiAddr) |});
         mret err
     end).
Proof.
  destruct looked as [multiAddr | err].
  - apply adds_bind.
    + apply adds_Backoff; [reflexivity |].
      apply adds_bind; [apply adds_call; reflexivity | intros r; apply adds_ret].
    + intros [u e]. apply adds_ret.
  - apply adds_bind; [apply adds_emit; reflexivity | intros _; apply adds_ret].
Qed.

(** X10.  Of the client's methods, only [Pong] and [MultiAddress] read the
    store, and only under the address the client was made with.  [Ping] and
    [Query] never read it.  [Pong] reads it once when its dial succeeded and
    not at all when the dial failed.  [MultiAddress] reads it once and
    touches the network not at all: it neither dials nor invokes an RPC. *)
Theorem store_is_read_by_Pong_and_MultiAddress storer address ctx to multiAddr query t :
  (exists d,
     snd (swarmClient_Ping (NewSwarmClient storer address) ctx to multiAddr t) = t ++ d
     /\ count isStore d = 0%nat)
  /\ (exists d,
        snd (swarmClient_Query (NewSwarmClient storer address) ctx to query t) = t ++ d
        /\ count isStore d = 0%nat)
  /\ (exists d,
        snd (swarmClient_Pong (NewSwarmClient storer address) ctx to t) = t ++ d
        /\ count isStore d
           = (match net_Dial net t ctx to with inl _ => 1 | inr _ => 0 end)%nat
        /\ Forall (fun e => isStore e = true -> e = EvStore address) d)
  /\ (exists d,
        snd (swarmClient_MultiAddress (NewSwarmClient storer address) t) = t ++ d
        /\ count isStore d = 1%nat
        /\ count isDial d = 0%nat
        /\ count isInvoke d = 0%nat
        /\ Forall (fun e => isStore e = true -> e = EvStore address) d).
Proof.
  split; [| split; [| split]].
  - destruct (Ping_reads_no_store (NewSwarmClient storer address) ctx to multiAddr t)
      as (d & E & F).
    exists d. split; [exact E | apply count_none, F].
  - destruct (Query_reads_no_store (NewSwarmClient storer address) ctx to query t)
      as (d & E & F).
    exists d. split; [exact E | apply count_none, F].
  - rewrite Pong_dialled. destruct (net_Dial net t ctx to) as [conn | err].
    + unfold defer, mbind at 1, M_bind at 1, store_MultiAddress, call.
      cbn [addr store NewSwarmClient].
      destruct (Pong_after_lookup_reads_no_store conn ctx
                  (storer_MultiAddress storer (t ++ [EvDial ctx to]) address)
                  ((t ++ [EvDial ctx to]) ++ [EvStore address])) as (d & E & F).
      match goal with
      | |- context [let '(_, _) := ?x in _] => destruct x as [r t1]
      end.
      simpl in E. subst t1.
      exists ([EvDial ctx to] ++ [EvStore address] ++ d ++ [EvClose conn]).
      split; [simpl; rewrite <- !app_assoc; reflexivity |].
      split.
      * rewrite !count_app, (count_none isStore d F). reflexivity.
      * apply Forall_app; split; [repeat constructor; discriminate |].
        apply Forall_app; split; [constructor; [reflexivity | constructor] |].
        apply Forall_app; split; [| repeat constructor; discriminate].
        eapply Forall_impl; [exact F |]. intros e He Hs. congruence.
    + eexists. split; [reflexivity |]. split; [reflexivity |].
      repeat constructor; discriminate.
  - unfold swarmClient_MultiAddress, mbind, M_bind, store_MultiAddress, call.
    cbn [addr store NewSwarmClient].
    destruct (storer_MultiAddress storer t address) as [self | err];
      eexists; (split; [cbn; try rewrite <- app_assoc; reflexivity |]);
      repeat split; repeat constructor; discriminate.
Qed.

End Swarm.

Arguments mkMultiAddress {Multiaddr} Signature Nonce baseMultiAddress.
Arguments MultiAddress_zero {Multiaddr}.
Arguments IsNil {Multiaddr} multiAddr.
Arguments baseMultiAddress {Multiaddr} m.
Arguments EvDial {Context Multiaddr} ctx to.
Arguments EvClose {Context Multiaddr} conn.
Arguments EvInvokePing {Context Multiaddr} conn ctx request.
Arguments EvInvokePong {Context Multiaddr} conn ctx request.
Arguments EvInvokeQuery {Context Multiaddr} conn ctx request.
Arguments EvStore {Context Multiaddr} addr.
Arguments EvLog {Context Multiaddr} lvl msg.
Arguments EvSleep {Context Multiaddr} attempt.
Arguments EvServerPing {Context Multiaddr} ctx multiAddr.
Arguments EvServerPong {Context Multiaddr} ctx multiAddr.
Arguments EvServerQuery {Context Multiaddr} ctx query.
Arguments InPing {Context} ctx request.
Arguments InPong {Context} ctx request.
Arguments InQuery {Context} ctx request.
Arguments isServer {Context Multiaddr} e.
Arguments count {Context Multiaddr} p d.

(** ** A concrete network

    Multi-addresses whose canonical string starts with a slash, a peer that
    can be reached and one that cannot, and a store: the inputs at which the
    statements above are instantiated. *)
Module Demo.

Definition Context : Type := string.
Definition Multiaddr : Type := string.

Definition canonical (multiAddr : MultiAddress Multiaddr) : string :=
  match baseMultiAddress multiAddr with
  | Some s => s
  | None => ""
  end.

Definition parse (s : string) : MultiAddress Multiaddr + error :=
  match s with
  | String.String "/"%char _ => inl (mkMultiAddress [] 0 (Some s))
  | _ => inr (errorString "invalid multiaddr")
  end.

Definition text (multiAddrMsg : option grpc_MultiAddress) : string :=
  GetMultiAddress multiAddrMsg.

Definition self : MultiAddress Multiaddr :=
  mkMultiAddress [x01; x02]%byte 5 (Some "/ip4/10.0.0.1/tcp/18514").

Definition peer : MultiAddress Multiaddr :=
  mkMultiAddress [] 0 (Some "/ip4/10.0.0.2/tcp/18514").

Definition good : grpc_MultiAddress :=
  {| msgSignature := [x0a]%byte;
     msgMultiAddress := "/ip4/10.0.0.3/tcp/18514";
     msgMultiAddressNonce := 7 |}.

Definition bad : grpc_MultiAddress :=
  {| msgSignature := [x0b]%byte;
     msgMultiAddress := "not a multiaddr";
     msgMultiAddressNonce := 9 |}.

(** A peer that answers: every query with one well-formed and one malformed
    entry. *)
Definition reachable : Network Context Multiaddr :=
  {| net_Dial := fun _ _ _ => inl 1%nat;
     net_Ping := fun _ _ _ _ => inl mkPingResponse;
     net_Pong := fun _ _ _ _ => inl mkPongResponse;
     net_Query := fun _ _ _ _ =>
       inl {| QueryResponse_MultiAddresses := [Some good; Some bad] |};
     ctx_Err := fun _ _ => None |}.

(** A peer that cannot be dialled. *)
Definition unreachable : Network Context Multiaddr :=
  {| net_Dial := fun _ _ _ => inr (errorString "connection refused");
     net_Ping := fun _ _ _ _ => inl mkPingResponse;
     net_Pong := fun _ _ _ _ => inl mkPongResponse;
     net_Query := fun _ _ _ _ => inl {| QueryResponse_MultiAddresses := [] |};
     ctx_Err := fun _ _ => None |}.

(** A store that knows the client's record, and one whose record for the
    client is the nil multi-address. *)
Definition knows : MultiAddressStorer Context Multiaddr :=
  {| storer_MultiAddress := fun _ _ => inl self |}.
Definition holdsNil : MultiAddressStorer Context Multiaddr :=
  {| storer_MultiAddress := fun _ _ => inl MultiAddress_zero |}.

Definition client : swarmClient Context Multiaddr :=
  {| addr := "8MJNCQhMrUCHuAk977igrdJk3tSzkT"; store := knows |}.
Definition clientOfNil : swarmClient Context Multiaddr :=
  {| addr := "8MJNCQhMrUCHuAk977igrdJk3tSzkT"; store := holdsNil |}.

(** The number of retries of the backoff in the examples. *)
Definition retries : nat := 3.

(** A store that has lost the client's record. *)
Definition forgets : MultiAddressStorer Context Multiaddr :=
  {| storer_MultiAddress := fun _ _ => inr (errorString "not found") |}.
Definition clientOfNone : swarmClient Context Multiaddr :=
  {| addr := "8MJNCQhMrUCHuAk977igrdJk3tSzkT"; store := forgets |}.

(** The highest nonce the swarm.Server has been handed so far. *)
Fixpoint highest (t : list (Event Context Multiaddr)) : Z :=
  match t with
  | [] => -1
  | EvServerPing _ multiAddr :: rest | EvServerPong _ multiAddr :: rest =>
      Z.max (Nonce Multiaddr multiAddr) (highest rest)
  | _ :: rest => highest rest
  end.

(** A swarm.Server that rejects a multi-address whose nonce is not above
    the highest it has seen, and that knows two peers. *)
Definition core : Server Context Multiaddr :=
  {| Server_Ping := fun t _ multiAddr =>
       if Nonce Multiaddr multiAddr <=? highest t
       then Some (errorString "stale nonce") else None;
     Server_Pong := fun t _ multiAddr =>
       if Nonce Multiaddr multiAddr <=? highest t
       then Some (errorString "stale nonce") else None;
     Server_Query := fun _ _ _ => inl [self; peer] |}.

Definition service : SwarmService Context Multiaddr := {| server := core |}.

(** The request that carries a multi-address at a nonce. *)
Definition pingAt (nonce : Z) : option PingRequest :=
  Some {| PingRequest_MultiAddress :=
            Some {| msgSignature := [x01; x02]%byte;
                    msgMultiAddress := "/ip4/10.0.0.1/tcp/18514";
                    msgMultiAddressNonce := nonce |} |}.

(** What [pingAt] makes the service hand to the swarm.Server. *)
Definition pinged (nonce : Z) : MultiAddress Multiaddr :=
  mkMultiAddress [x01; x02]%byte nonce (Some "/ip4/10.0.0.1/tcp/18514").

(** The nil multi-address is refused by [Ping] before anything happens. *)
Lemma Ping_nil_address_witness :
  IsNil (MultiAddress_zero : MultiAddress Multiaddr) = true
  /\ swarmClient_Ping Context Multiaddr canonical reachable retries client
       "ctx" peer MultiAddress_zero []
     = (Ret (Some ErrMultiAddressIsNil), []).
Proof.
  split; [reflexivity |].
  exact (proj1 (Ping_nil_address_before_dial Context Multiaddr canonical reachable
                  retries client "ctx" peer MultiAddress_zero [] eq_refl)).
Defined.

(** C1 fails for [Pong]: the record it would send is the nil multi-address,
    and still its first act is to dial; against a peer that cannot be
    reached it fails with the dial's error, not with
    [ErrMultiAddressIsNil]. *)
Lemma Pong_dials_before_its_address :
  storer_MultiAddress Context Multiaddr (store Context Multiaddr clientOfNil) []
    (addr Context Multiaddr clientOfNil) = inl MultiAddress_zero
  /\ IsNil (MultiAddress_zero : MultiAddress Multiaddr) = true
  /\ swarmClient_Pong Context Multiaddr canonical unreachable retries clientOfNil
       "ctx" peer []
     = (Ret (Some (errorString
                     "cannot dial /ip4/10.0.0.2/tcp/18514: connection refused")),
        [EvDial "ctx" peer;
         EvLog LevelError "cannot dial /ip4/10.0.0.2/tcp/18514: connection refused"]).
Proof. repeat split. Qed.

(** C3 fails at the dial: with three retries allowed, a [Ping] to a peer
    that cannot be dialled returns the dial's error after one dial and one
    log line, with no delay and no second dial. *)
Lemma Ping_dial_failure_not_retried :
  retries = 3%nat
  /\ swarmClient_Ping Context Multiaddr canonical unreachable retries client
       "ctx" peer self []
     = (Ret (Some (errorString
                     "cannot dial /ip4/10.0.0.2/tcp/18514: connection refused")),
        [EvDial "ctx" peer;
         EvLog LevelError "cannot dial /ip4/10.0.0.2/tcp/18514: connection refused"]).
Proof. split; reflexivity. Qed.

(** The three calls against the peer that answers. *)
Lemma connection_released_witness :
  released Context Multiaddr [] "ctx" peer 1%nat
    (snd (swarmClient_Ping Context Multiaddr canonical reachable retries client
            "ctx" peer self []))
  /\ released Context Multiaddr [] "ctx" peer 1%nat
       (snd (swarmClient_Pong Context Multiaddr canonical reachable retries client
               "ctx" peer []))
  /\ released Context Multiaddr [] "ctx" peer 1%nat
       (snd (swarmClient_Query Context Multiaddr canonical parse reachable retries
               client "ctx" peer "target" [])).
Proof.
  apply (connection_released Context Multiaddr canonical parse reachable retries
           client "ctx" peer self "target" [] 1%nat);
    [reflexivity | reflexivity | discriminate].
Defined.

(** Each of the three calls dials once, whether the peer answers or not. *)
Lemma dial_outside_Backoff_witness :
  dialsOnce Context Multiaddr []
    (snd (swarmClient_Ping Context Multiaddr canonical unreachable retries client
            "ctx" peer self []))
  /\ dialsOnce Context Multiaddr []
       (snd (swarmClient_Pong Context Multiaddr canonical unreachable retries client
               "ctx" peer []))
  /\ dialsOnce Context Multiaddr []
       (snd (swarmClient_Query Context Multiaddr canonical parse unreachable retries
               client "ctx" peer "target" [])).
Proof.
  apply (dial_outside_Backoff Context Multiaddr canonical parse unreachable retries
           client "ctx" peer self "target" []);
    [reflexivity | discriminate].
Defined.

(** One well-formed and one malformed entry give the one record. *)
Lemma Query_skips_malformed_witness :
  fst (swarmClient_Query Context Multiaddr canonical parse reachable retries client
         "ctx" peer "target" [])
  = Ret ([mkMultiAddress [x0a]%byte 7 (Some "/ip4/10.0.0.3/tcp/18514")], None).
Proof.
  refine (proj2 (proj2
            (Query_skips_malformed Context Multiaddr canonical parse reachable retries
               client "ctx" peer "target" [] 1%nat [good; bad]
               [EvDial "ctx" peer;
                EvInvokeQuery 1%nat "ctx" {| QueryRequest_Address := "target" |}]
               _ eq_refl eq_refl))
            good bad _ eq_refl eq_refl (or_introl eq_refl)).
  discriminate.
Defined.

(** The service, run: a ping at nonce 5 is accepted; the next, at nonce
    4, is rejected with an empty response that is not nil. *)
Example Ping_then_stale_Ping :
  SwarmService_Ping Context Multiaddr parse service "A" (pingAt 5) []
  = (Ret (Some mkPingResponse, None), [EvServerPing "A" (pinged 5)])
  /\ SwarmService_Ping Context Multiaddr parse service "A" (pingAt 4)
       [EvServerPing "A" (pinged 5)]
     = (Ret (Some mkPingResponse,
             Some (errorString "cannot update store: stale nonce")),
        [EvServerPing "A" (pinged 5); EvServerPing "A" (pinged 4);
         EvLog LevelInfo "cannot update store with: stale nonce"]).
Proof. split; reflexivity. Qed.

(** One caller, three requests in a row: each reaches the swarm.Server,
    none is throttled. *)
Example same_caller_in_a_row :
  fst (serve Context Multiaddr canonical parse text service
         [InPing "A" (pingAt 5); InPing "A" (pingAt 6);
          InQuery "A" (Some {| QueryRequest_Address := "target" |})] [])
  = Ret [(None, [EvServerPing "A" (pinged 5)]);
         (None, [EvServerPing "A" (pinged 6)]);
         (None, [EvServerQuery "A" "target"])].
Proof. reflexivity. Qed.

(** The same caller, three requests in a row, the first two the same:
    the first is accepted by the swarm.Server, the second is handed to it
    too and rejected by it as stale, the third is a nil request.  None is
    throttled. *)
Lemma service_never_throttles_witness :
  fst (serve Context Multiaddr canonical parse text service
         [InPing "A" (pingAt 5); InPing "A" (pingAt 5); InPing "A" None] [])
  = Ret [(None, [EvServerPing "A" (pinged 5)]);
         (Some (errorString "cannot update store: stale nonce"),
          [EvServerPing "A" (pinged 5);
           EvLog LevelInfo "cannot update store with: stale nonce"]);
         (Some ErrPingRequestIsNil, [])]
  /\ exists outs t',
       serve Context Multiaddr canonical parse text service
         [InPing "A" (pingAt 5); InPing "A" (pingAt 5); InPing "A" None] []
       = (Ret outs, t')
       /\ length outs = 3%nat
       /\ Forall (neverThrottled Context Multiaddr) outs
       /\ (forall d, (Some ErrRateLimitExceeded, d) ∈ outs -> count isServer d = 1%nat).
Proof.
  split; [reflexivity |].
  exact (service_never_throttles Context Multiaddr canonical parse text service
           [InPing "A" (pingAt 5); InPing "A" (pingAt 5); InPing "A" None] []).
Defined.

(** The two peers the swarm.Server knows, as messages and in its order. *)
Lemma Query_service_witness :
  SwarmService_Query Context Multiaddr canonical service "A"
    (Some {| QueryRequest_Address := "target" |}) []
  = (Ret (Some {| QueryResponse_MultiAddresses :=
                    [Some {| msgSignature := [x01; x02]%byte;
                             msgMultiAddress := "/ip4/10.0.0.1/tcp/18514";
                             msgMultiAddressNonce := 5 |};
                     Some {| msgSignature := [];
                             msgMultiAddress := "/ip4/10.0.0.2/tcp/18514";
                             msgMultiAddressNonce := 0 |}] |},
          None),
     [EvServerQuery "A" "target"]).
Proof.
  refine (proj2 (proj2 (proj2
            (Query_service_contract Context Multiaddr canonical service "A" [])))
            "target" [self; peer] _ eq_refl).
  discriminate.
Defined.

(** A well-formed ping reaches the swarm.Server with its signature and nonce. *)
Lemma Ping_service_witness :
  exists r logged,
    SwarmService_Ping Context Multiaddr parse service "A" (pingAt 5) []
    = (r, [] ++ EvServerPing "A" (pinged 5) :: logged)
    /\ count isServer logged = 0%nat.
Proof.
  exact (proj2 (proj2 (proj2
           (Ping_service_contract Context Multiaddr parse service "A" [])))
           {| msgSignature := [x01; x02]%byte;
              msgMultiAddress := "/ip4/10.0.0.1/tcp/18514";
              msgMultiAddressNonce := 5 |}
           (mkMultiAddress [] 0 (Some "/ip4/10.0.0.1/tcp/18514")) eq_refl).
Defined.

(** The store that knows the record, and the store that has lost it. *)
Lemma MultiAddress_best_effort_witness :
  fst (swarmClient_MultiAddress Context Multiaddr client []) = Ret self
  /\ fst (swarmClient_MultiAddress Context Multiaddr clientOfNone [])
     = Ret MultiAddress_zero.
Proof.
  split.
  - exact (proj1 (proj2 (MultiAddress_best_effort Context Multiaddr client []))
             self eq_refl).
  - exact (proj2 (proj2 (MultiAddress_best_effort Context Multiaddr clientOfNone []))
             (errorString "not found") eq_refl).
Defined.

(** The malformed address string, sent to both handlers. *)
Lemma Ping_Pong_malformed_witness :
  SwarmService_Ping Context Multiaddr parse service "A"
    (Some {| PingRequest_MultiAddress := Some bad |}) []
  = (Ret (None, Some (errorString "cannot unmarshal multiaddress: invalid multiaddr")),
     [EvLog LevelError "cannot unmarshal multiaddress: invalid multiaddr"])
  /\ SwarmService_Pong Context Multiaddr parse text service "A"
       (Some {| PongRequest_MultiAddress := Some bad |}) []
     = (Ret (None, Some (errorString "cannot unmarshal multiaddress: invalid multiaddr")),
        [EvLog LevelError "cannot unmarshal multiaddress: invalid multiaddr"]).
Proof.
  exact (proj1 (proj2 (proj2
           (Ping_Pong_equivalent Context Multiaddr parse text service "A" [])))
           bad (errorString "invalid multiaddr") eq_refl).
Defined.

(** The requests of a [Ping] and of a [Query] to the peer that answers. *)
Lemma requests_of_Ping_and_Query_witness :
  (exists d,
     snd (swarmClient_Ping Context Multiaddr canonical reachable retries client
            "ctx" peer self [])
     = [] ++ EvDial "ctx" peer :: d ++ [EvClose 1%nat]
     /\ Forall (attemptOf Context Multiaddr
                  (EvInvokePing 1%nat "ctx"
                     {| PingRequest_MultiAddress :=
                          Some {| msgSignature := [x01; x02]%byte;
                                  msgMultiAddress := "/ip4/10.0.0.1/tcp/18514";
                                  msgMultiAddressNonce := 5 |} |})) d)
  /\ (exists d,
        snd (swarmClient_Query Context Multiaddr canonical parse reachable retries
               client "ctx" peer "target" [])
        = [] ++ EvDial "ctx" peer :: d ++ [EvClose 1%nat]
        /\ Forall (attemptOrLog Context Multiaddr
                     (EvInvokeQuery 1%nat "ctx" {| QueryRequest_Address := "target" |})) d).
Proof.
  apply (requests_of_Ping_and_Query Context Multiaddr canonical parse reachable retries
           client "ctx" peer self "target" [] 1%nat);
    [reflexivity | reflexivity | discriminate].
Defined.

(** The request of a [Pong] carries the record of the store. *)
Lemma requests_of_Pong_witness :
  exists d,
    snd (swarmClient_Pong Context Multiaddr canonical reachable retries client
           "ctx" peer [])
    = [] ++ EvDial "ctx" peer :: EvStore "8MJNCQhMrUCHuAk977igrdJk3tSzkT"
         :: d ++ [EvClose 1%nat]
    /\ Forall (attemptOf Context Multiaddr
                 (EvInvokePong 1%nat "ctx"
                    {| PongRequest_MultiAddress :=
                         Some {| msgSignature := [x01; x02]%byte;
                                 msgMultiAddress := "/ip4/10.0.0.1/tcp/18514";
                                 msgMultiAddressNonce := 5 |} |})) d.
Proof.
  exact (requests_of_Pong Context Multiaddr canonical reachable retries client
           "ctx" peer [] 1%nat self eq_refl eq_refl).
Defined.

(** A [Query] to the peer that cannot be dialled: an error, and no record. *)
Lemma Query_error_without_records_witness :
  fst (swarmClient_Query Context Multiaddr canonical parse unreachable retries client
         "ctx" peer "target" [])
  = Ret ([], Some (errorString
                     "cannot dial /ip4/10.0.0.2/tcp/18514: connection refused"))
  /\ ([] : list (MultiAddress Multiaddr)) = [].
Proof.
  split; [reflexivity |].
  exact (Query_error_without_records Context Multiaddr canonical parse unreachable
           retries client "ctx" peer "target" [] []
           (errorString "cannot dial /ip4/10.0.0.2/tcp/18514: connection refused")
           eq_refl).
Defined.

(** One well-formed and one malformed entry: one warning, then the close. *)
Lemma Query_warns_per_malformed_witness :
  snd (swarmClient_Query Context Multiaddr canonical parse reachable retries client
         "ctx" peer "target" [])
  = [EvDial "ctx" peer;
     EvInvokeQuery 1%nat "ctx" {| QueryRequest_Address := "target" |};
     EvLog LevelWarn "cannot parse not a multiaddr: invalid multiaddr";
     EvClose 1%nat].
Proof.
  refine (proj1
            (Query_warns_per_malformed Context Multiaddr canonical parse reachable
               retries client "ctx" peer "target" [] 1%nat [good; bad]
               [EvDial "ctx" peer;
                EvInvokeQuery 1%nat "ctx" {| QueryRequest_Address := "target" |}]
               _ eq_refl eq_refl)).
  discriminate.
Defined.

Lemma self_roundTrips : roundTrips Multiaddr canonical parse self.
Proof. eexists. split; reflexivity. Qed.

Lemma peer_roundTrips : roundTrips Multiaddr canonical parse peer.
Proof. eexists. split; reflexivity. Qed.

(** What the client announces for [self] reaches the swarm.Server as [self]. *)
Lemma announced_is_delivered_witness :
  (exists r logged,
     SwarmService_Ping Context Multiaddr parse service "A"
       (Some {| PingRequest_MultiAddress :=
                  Some (toMessage Multiaddr canonical self) |}) []
     = (r, [] ++ EvServerPing "A" self :: logged))
  /\ (exists r logged,
        SwarmService_Pong Context Multiaddr parse text service "A"
          (Some {| PongRequest_MultiAddress :=
                     Some (toMessage Multiaddr canonical self) |}) []
        = (r, [] ++ EvServerPong "A" self :: logged)).
Proof.
  exact (announced_is_delivered Context Multiaddr canonical parse text service "A"
           self [] self_roundTrips).
Defined.

(** The two peers the swarm.Server knows come back from the response. *)
Lemma found_is_returned_witness :
  exists response,
    fst (SwarmService_Query Context Multiaddr canonical service "A"
           (Some {| QueryRequest_Address := "target" |}) [])
    = Ret (Some response, None)
    /\ parseResponse Context Multiaddr parse
         (QueryResponse_MultiAddresses response) [] []
       = (Ret [self; peer], []).
Proof.
  refine (found_is_returned Context Multiaddr canonical parse service "A" "target"
            [self; peer] [] [] _ eq_refl _).
  - discriminate.
  - repeat constructor; [apply self_roundTrips | apply peer_roundTrips].
Defined.

End Demo.

(** There is no sequence of requests, from whatever callers and at
    whatever pace, and no swarm.Server, with which the service answers a
    request with [ErrRateLimitExceeded] without a call into the
    swarm.Server. *)
Lemma rate_limit_never_without_server :
  ~ exists (Context Multiaddr : Type)
      (MultiAddress_String : MultiAddress Multiaddr -> string)
      (NewMultiAddressFromString : string -> MultiAddress Multiaddr + error)
      (grpc_MultiAddress_String : option grpc_MultiAddress -> string)
      (service : SwarmService Context Multiaddr)
      (reqs : list (Inbound Context))
      (t t' : list (Event Context Multiaddr))
      (outs : list (option error * list (Event Context Multiaddr)))
      (d : list (Event Context Multiaddr)),
      serve Context Multiaddr MultiAddress_String NewMultiAddressFromString
        grpc_MultiAddress_String service reqs t = (Ret outs, t')
      /\ (Some ErrRateLimitExceeded, d) ∈ outs
      /\ count isServer d = 0%nat.
Proof.
  intros (Context & Multiaddr & str & parse & text & service & reqs & t & t' & outs & d
          & E & Hin & Hd).
  destruct (serve_neverThrottled Context Multiaddr str parse text service reqs t)
    as (outs' & t'' & E' & _ & F).
  rewrite E in E'. injection E' as <- <-.
  rewrite Forall_forall in F. destruct (F _ Hin) as [H _].
  exact (validationRejection_not_rate_limit (H Hd)).
Qed.
